(** * generate_graph.py: statistics, trendline fitting and grid aggregation

    A shallow embedding of [src/generate_graph.py].  The script works on
    one-dimensional numpy arrays of float64 values.  Arrays are lists
    here, and the scalar arithmetic is taken through the interface
    [Scalar], which has two instances:

    - [float] (IEEE-754 binary64, the kernel's primitive floats): what
      numpy computes with, including NaN and the infinities;
    - [R] (the real numbers): exact arithmetic, used for the algebraic
      properties of the formulas.

    Python exceptions are values of [exn]; a function that can raise
    returns a [result]. *)

From Stdlib Require Import String.
From Stdlib Require Import List Bool Arith ZArith Lia.
From Stdlib Require Sorted Permutation.
From Stdlib Require Import Floats.
From Stdlib Require Import Reals Lra.
Import ListNotations.

(** ** Exceptions and results *)

Inductive exn : Type :=
| TypeError (msg : string)
| ValueError (msg : string)
| ZeroDivisionError (msg : string)
| IndexError
| KeyError (key : string)
| RuntimeError (msg : string)
| LinAlgError.

Inductive result (A : Type) : Type :=
| Ok (a : A)
| Raise (e : exn).

Arguments Ok {A} a.
Arguments Raise {A} e.

Definition bind {A B : Type} (c : result A) (k : A -> result B) : result B :=
  match c with
  | Ok a => k a
  | Raise e => Raise e
  end.

Declare Scope result_scope.
Delimit Scope result_scope with result.
Notation "x <- c ;; k" := (bind c (fun x => k))
  (at level 61, c at next level, right associativity) : result_scope.
Open Scope result_scope.

Definition raises {A : Type} (c : result A) : Prop :=
  exists e, c = Raise e.

Definition returns {A : Type} (c : result A) : Prop :=
  exists a, c = Ok a.

(** ** Scalars *)

Class Scalar (T : Type) : Type := {
  of_nat : nat -> T;          (* a Python int used as a float64 *)
  sadd : T -> T -> T;
  ssub : T -> T -> T;
  smul : T -> T -> T;
  sdiv : T -> T -> T;         (* numpy division: total, x/0 is nan or inf *)
  ssqrt : T -> T;             (* np.sqrt *)
  seqb : T -> T -> bool;      (* == *)
  sisnan : T -> bool          (* np.isnan *)
}.

Definition zero {T} `{Scalar T} : T := of_nat 0.
Definition one {T} `{Scalar T} : T := of_nat 1.

Definition R_eqb (a b : R) : bool :=
  if Req_dec_T a b then true else false.

(** Exact arithmetic: the real numbers, where no value is NaN and, as in
    the Standard Library, x / 0 is x * / 0 (no theorem below divides by
    zero in it). *)
#[export] Instance Scalar_R : Scalar R := {
  of_nat := INR;
  sadd := Rplus;
  ssub := Rminus;
  smul := Rmult;
  sdiv := Rdiv;
  ssqrt := sqrt;
  seqb := R_eqb;
  sisnan := fun _ => false
}.

#[export] Instance Scalar_float : Scalar float := {
  of_nat := fun n => PrimFloat.of_uint63 (Uint63.of_Z (Z.of_nat n));
  sadd := PrimFloat.add;
  ssub := PrimFloat.sub;
  smul := PrimFloat.mul;
  sdiv := PrimFloat.div;
  ssqrt := PrimFloat.sqrt;
  seqb := PrimFloat.eqb;
  sisnan := PrimFloat.is_nan
}.

(** ** One-dimensional numpy arrays *)

Section Numpy.
Context {T : Type} `{Scalar T}.

Fixpoint zip_with (f : T -> T -> T) (a b : list T) : list T :=
  match a, b with
  | x :: a', y :: b' => f x y :: zip_with f a' b'
  | _, _ => []
  end.

(** A binary ufunc on shapes (n,) and (m,): elementwise when n = m, the
    one-element operand is stretched when n = 1 or m = 1, and numpy
    raises ValueError otherwise. *)
Definition broadcast (f : T -> T -> T) (a b : list T) : result (list T) :=
  if Nat.eqb (length a) (length b) then Ok (zip_with f a b)
  else match a, b with
       | [x], _ => Ok (map (fun y => f x y) b)
       | _, [y] => Ok (map (fun x => f x y) a)
       | _, _ => Raise (ValueError "operands could not be broadcast together")
       end.

Definition arr_sub : list T -> list T -> result (list T) := broadcast ssub.
Definition arr_mul : list T -> list T -> result (list T) := broadcast smul.

(** array - scalar *)
Definition arr_sub_scalar (a : list T) (s : T) : list T :=
  map (fun x => ssub x s) a.

(** array ** 2 *)
Definition arr_square (a : list T) : list T :=
  map (fun x => smul x x) a.

(** np.sum, accumulating from the left, starting at zero.  numpy starts
    at the first element and adds arrays of eight or more elements block
    by block: in float64 the two can differ in the rounding of a long sum
    and in the sign of a zero total, and agree in exact arithmetic. *)
Definition np_sum (a : list T) : T := fold_left sadd a zero.

(** np.average(a, weights=w) for a weight array: numpy checks the shapes,
    then the weight total, then divides. *)
Definition np_average (a w : list T) : result T :=
  if negb (Nat.eqb (length a) (length w)) then
    Raise (TypeError "Axis must be specified when shapes of a and weights differ.")
  else
    let scl := np_sum w in
    if seqb scl zero then
      Raise (ZeroDivisionError "Weights sum to zero, can't be normalized")
    else Ok (sdiv (np_sum (zip_with smul a w)) scl).

(** [x] * n *)
Definition ones (n : nat) : list T := repeat one n.

(** ** The statistics functions of the script *)

(** y[i] *)
Definition getitem (a : list T) (i : nat) : result T :=
  match nth_error a i with
  | Some x => Ok x
  | None => Raise IndexError
  end.

(** [weight_func(X[i], y[i]) for i in range(len(X))] *)
Fixpoint weights_comprehension (weight_func : T -> T -> T) (X y : list T)
         (range : list nat) : result (list T) :=
  match range with
  | [] => Ok []
  | i :: range' =>
      xi <- getitem X i ;;
      yi <- getitem y i ;;
      ws <- weights_comprehension weight_func X y range' ;;
      Ok (weight_func xi yi :: ws)
  end.

Definition compute_weights (X y : list T) (weight_func : option (T -> T -> T))
  : result (option (list T)) :=
  match weight_func with
  | Some wf =>
      ws <- weights_comprehension wf X y (seq 0 (length X)) ;;
      Ok (Some ws)
  | None => Ok None
  end.

Definition coefficient_of_determination (X y : list T)
           (trendline : list T -> result (list T))
           (weight_func : option (T -> T -> T)) : result T :=
  weights <- match weight_func with
             | Some _ =>
                 ow <- compute_weights X y weight_func ;;
                 match ow with
                 | Some ws => Ok ws
                 | None => Raise (TypeError "unsupported operand type(s) for *")
                 end
             | None => Ok (ones (length X))
             end ;;
  y_regression <- trendline X ;;
  mean <- np_average y weights ;;
  tss_terms <- arr_mul weights (arr_square (arr_sub_scalar y mean)) ;;
  let tss := np_sum tss_terms in
  residuals <- arr_sub y_regression y ;;
  rss_terms <- arr_mul weights (arr_square residuals) ;;
  let rss := np_sum rss_terms in
  Ok (ssub one (sdiv rss tss)).

Definition default_weights (X : list T) (weights : option (list T)) : list T :=
  match weights with
  | None => ones (length X)
  | Some w => w
  end.

Definition covariance (X y : list T) (weights : option (list T)) : result T :=
  let weights := default_weights X weights in
  mx <- np_average X weights ;;
  let dx := arr_sub_scalar X mx in
  my <- np_average y weights ;;
  let dy := arr_sub_scalar y my in
  prod <- arr_mul dx dy ;;
  np_average prod weights.

Definition correlation_coefficient (X y : list T) (weights : option (list T))
  : result T :=
  let weights := default_weights X weights in
  cxy <- covariance X y (Some weights) ;;
  cxx <- covariance X X (Some weights) ;;
  cyy <- covariance y y (Some weights) ;;
  Ok (sdiv cxy (ssqrt (smul cxx cyy))).

Definition _generate_trendline_metrics (X y : list T)
           (trendline : list T -> result (list T))
           (weight_func : option (T -> T -> T)) : result (T * T) :=
  weights <- compute_weights X y weight_func ;;
  p_value <- correlation_coefficient X y weights ;;
  r_squared <- coefficient_of_determination X y trendline weight_func ;;
  Ok (p_value, r_squared).

(** ** The values of the formulas, as the code computes them

    What the functions return when no exception is raised; the only
    tests on the way are those of [np_average]. *)

Definition average_value (a w : list T) : T :=
  sdiv (np_sum (zip_with smul a w)) (np_sum w).

(** The exception [np_average] raises for an array of length [n], if any. *)
Definition average_guard (n : nat) (w : list T) : option exn :=
  if negb (Nat.eqb n (length w)) then
    Some (TypeError "Axis must be specified when shapes of a and weights differ.")
  else if seqb (np_sum w) zero then
    Some (ZeroDivisionError "Weights sum to zero, can't be normalized")
  else None.

Definition covariance_value (X y w : list T) : T :=
  let dx := arr_sub_scalar X (average_value X w) in
  let dy := arr_sub_scalar y (average_value y w) in
  average_value (zip_with smul dx dy) w.

Definition correlation_value (X y w : list T) : T :=
  sdiv (covariance_value X y w)
       (ssqrt (smul (covariance_value X X w) (covariance_value y y w))).

Definition tss_value (w y : list T) : T :=
  np_sum (zip_with smul w (arr_square (arr_sub_scalar y (average_value y w)))).

Definition rss_value (w yhat y : list T) : T :=
  np_sum (zip_with smul w (arr_square (zip_with ssub yhat y))).

Definition determination_value (w yhat y : list T) : T :=
  ssub one (sdiv (rss_value w yhat y) (tss_value w y)).

(** The weights that [coefficient_of_determination] works with. *)
Definition weights_of (X y : list T) (weight_func : option (T -> T -> T))
  : list T :=
  match weight_func with
  | Some wf => zip_with wf X y
  | None => ones (length X)
  end.

End Numpy.

(** ** Trendline fitting *)

Section Fitting.
Context {T : Type} `{Scalar T}.

(** The numerical solvers behind the fitters are library code (LAPACK
    behind [numpy.polyfit], MINPACK behind [scipy.optimize.curve_fit]);
    they are parameters.  [lstsq X y degree w] is the least-squares
    solution of the Vandermonde system, highest power first;
    [curve_fit f X y sigma absolute_sigma] is the optimizer, which raises
    when it finds no parameters. *)
Variable lstsq : list T -> list T -> nat -> option (list T) -> result (list T).
Variable curve_fit :
  (list T -> list T -> result (list T)) ->
  list T -> list T -> option (list T) -> bool -> result (list T).

(** np.polyfit(x, y, deg, w=w): the argument checks of numpy, then the
    solver.  A system with fewer samples than coefficients is not
    rejected (numpy warns about its rank and returns the solution). *)
Definition polyfit (x y : list T) (deg : nat) (w : option (list T))
  : result (list T) :=
  if Nat.eqb (length x) 0 then
    Raise (TypeError "expected non-empty vector for x")
  else if negb (Nat.eqb (length x) (length y)) then
    Raise (TypeError "expected x and y to have same length")
  else
    match w with
    | Some ws =>
        if negb (Nat.eqb (length ws) (length y)) then
          Raise (TypeError "expected w and y to have the same length")
        else lstsq x y deg w
    | None => lstsq x y deg w
    end.

Fixpoint trim_zeros_front (c : list T) : list T :=
  match c with
  | [] => []
  | a :: c' => if seqb a zero then trim_zeros_front c' else c
  end.

(** np.poly1d(c) applied to an array: leading zero coefficients are
    dropped and the polynomial is evaluated by Horner's rule. *)
Definition polyval (c : list T) (x : list T) : list T :=
  let coeffs := match trim_zeros_front c with
                | [] => [zero]
                | c' => c'
                end in
  map (fun xi => fold_left (fun acc pv => sadd (smul acc xi) pv) coeffs zero) x.

Definition poly1d (c : list T) (x : list T) : result (list T) :=
  Ok (polyval c x).

Definition generate_polynomial_trendline (X y : list T)
           (weight_func : option (T -> T -> T)) (degree : nat)
  : result ((list T -> result (list T)) * T * T) :=
  weights <- compute_weights X y weight_func ;;
  coeffs <- polyfit X y degree weights ;;
  let trendline := poly1d coeffs in
  m <- _generate_trendline_metrics X y trendline weight_func ;;
  Ok (trendline, fst m, snd m).

Definition generate_curve_fit (X y : list T)
           (f : list T -> list T -> result (list T))
           (weight_func : option (T -> T -> T))
  : result ((list T -> result (list T)) * T * T) :=
  weights <- compute_weights X y weight_func ;;
  popt <- curve_fit f X y weights
            (match weight_func with Some _ => true | None => false end) ;;
  let trendline := fun x => f x popt in
  m <- _generate_trendline_metrics X y trendline weight_func ;;
  Ok (trendline, fst m, snd m).

(** ** The per-column plotting loop *)

Variable np_log : T -> T.

(** lambda t, a, b, c: a * np.log(b * t) + c *)
Definition log_model (t : list T) (params : list T) : result (list T) :=
  match params with
  | [a; b; c] => Ok (map (fun ti => sadd (smul a (np_log (smul b ti))) c) t)
  | _ => Raise (TypeError "<lambda>() takes 4 positional arguments")
  end.

(** What the script has shown or logged so far.  The logged metrics are
    kept as computed (the script rounds them to 3 decimals for display). *)
Inductive event : Type :=
| Scatter (X y : list T)
| Plot (xs ys : list T) (label : string)
| LogInfo (msg : string) (value : T)
| Legend
| Show.

Definition column_body (X sorted_X : list T) (column : string) (y : list T)
           (out : list event) : list event * result unit :=
  let out := out ++ [Scatter X y] in
  match generate_polynomial_trendline X y None 1 with
  | Raise e => (out, Raise e)
  | Ok (trendline, p, rsquared) =>
      match trendline sorted_X with
      | Raise e => (out, Raise e)
      | Ok ys =>
          let out := out ++ [Plot sorted_X ys (column ++ " (linear)")] in
          match generate_curve_fit X y log_model None with
          | Raise e => (out, Raise e)
          | Ok (log_trendline, log_p, log_rsquared) =>
              match log_trendline sorted_X with
              | Raise e => (out, Raise e)
              | Ok log_ys =>
                  (out ++ [Plot sorted_X log_ys (column ++ " (logarithmic)");
                           LogInfo (column ++ " - Correlation coefficient: ") p;
                           LogInfo (column ++ " - R-squared (linear): ") rsquared;
                           LogInfo (column ++ " - R-squared (logarithmic): ")
                                   log_rsquared],
                   Ok tt)
              end
          end
      end
  end.

(** for column in Y: ...  An exception leaves the loop at once. *)
Fixpoint column_loop (X sorted_X : list T) (Y : list (string * list T))
         (out : list event) : list event * result unit :=
  match Y with
  | [] => (out, Ok tt)
  | (column, y) :: rest =>
      match column_body X sorted_X column y out with
      | (out', Ok _) => column_loop X sorted_X rest out'
      | (out', Raise e) => (out', Raise e)
      end
  end.

Fixpoint insert_sorted (n : nat) (l : list nat) : list nat :=
  match l with
  | [] => [n]
  | m :: l' => if Nat.leb n m then n :: l else m :: insert_sorted n l'
  end.

(** sorted(X) on the point counts *)
Definition sorted (l : list nat) : list nat := fold_right insert_sorted [] l.

Definition plot_columns (X : list nat) (Y : list (string * list T))
  : list event * result unit :=
  match column_loop (map of_nat X) (map of_nat (sorted X)) Y [] with
  | (out, Ok _) => (out ++ [Legend; Show], Ok tt)
  | (out, Raise e) => (out, Raise e)
  end.

End Fitting.

(** ** The input path check *)

Inductive fs_entry : Type :=
| NoEntry           (* nothing at the path *)
| RegularFile
| Directory.

Definition is_file (e : fs_entry) : bool :=
  match e with RegularFile => true | _ => false end.

Definition exists_ (e : fs_entry) : bool :=
  match e with NoEntry => false | _ => true end.

Inductive startup : Type :=
| ExitWith (code : Z) (logged : string)
| Proceed.

(** if not (input_path.is_file() or input_path.exists()): error, exit(1) *)
Definition input_check (input_path : fs_entry) : startup :=
  if negb (is_file input_path || exists_ input_path) then
    ExitWith 1 "The specified input is not a file or does not exist!"
  else Proceed.

(** ** The aggregation loop *)

Section Aggregation.
Context {T : Type} `{Scalar T}.

Record Point : Type := { px : T; py : T }.

(** A row of the table: its coordinates and its value in each column. *)
Record Row : Type := { lon : T; lat : T; value : string -> T }.

Record DataFrame : Type := { labels : list string; rows : list Row }.

(** Python dicts keep insertion order: association lists. *)
Fixpoint dict_get {V : Type} (k : string) (d : list (string * V)) : option V :=
  match d with
  | [] => None
  | (k', v) :: d' => if String.eqb k k' then Some v else dict_get k d'
  end.

Fixpoint dict_set {V : Type} (k : string) (v : V) (d : list (string * V))
  : list (string * V) :=
  match d with
  | [] => [(k, v)]
  | (k', v') :: d' =>
      if String.eqb k k' then (k, v) :: d' else (k', v') :: dict_set k v d'
  end.

(** {key: v for key in keys} *)
Definition dict_fromkeys {V : Type} (keys : list string) (v : V)
  : list (string * V) :=
  fold_left (fun d k => dict_set k v d) keys [].

(** df[(df[lon] == point.x) & (df[lat] == point.y)] *)
Definition matching_rows (df : DataFrame) (point : Point) : list Row :=
  filter (fun r => seqb (lon r) (px point) && seqb (lat r) (py point)) (rows df).

(** ...[args.y_columns]: every requested label must be a column. *)
Fixpoint check_labels (df : DataFrame) (y_columns : list string) : result unit :=
  match y_columns with
  | [] => Ok tt
  | c :: cs =>
      if existsb (String.eqb c) (labels df) then check_labels df cs
      else Raise (KeyError c)
  end.

(** sum(x if not np.isnan(x) else 0 for x in values), over values read as
    float64 (pandas reads a column with a missing cell or a decimal point
    as float64; the totals of an all-integer column are exact ints). *)
Definition nan_to_zero (x : T) : T := if sisnan x then zero else x.

Definition py_sum (values : list T) : T :=
  fold_left sadd (map nan_to_zero values) zero.

Fixpoint foldM {A S : Type} (f : S -> A -> result S) (l : list A) (s : S)
  : result S :=
  match l with
  | [] => Ok s
  | a :: l' => s' <- f s a ;; foldM f l' s'
  end.

(** total_v[column] += sum(...) for one column of the selected rows.  A
    label requested twice selects a two-column frame, whose iteration
    yields labels, on which np.isnan raises. *)
Definition add_column (y_columns : list string) (selected : list Row)
           (total_v : list (string * T)) (column : string)
  : result (list (string * T)) :=
  if Nat.ltb 1 (count_occ string_dec y_columns column) then
    Raise (TypeError "ufunc 'isnan' not supported for the input types")
  else
    match dict_get column total_v with
    | Some t =>
        Ok (dict_set column
              (sadd t (py_sum (map (fun r => value r column) selected)))
              total_v)
    | None => Raise (KeyError column)
    end.

(** The body of [for point in chunks[i][j]]. *)
Definition add_point (df : DataFrame) (y_columns : list string)
           (total_v : list (string * T)) (point : Point)
  : result (list (string * T)) :=
  _ <- check_labels df y_columns ;;
  foldM (add_column y_columns (matching_rows df point)) y_columns total_v.

(** Y[column].append(total_v[column]) for column in total_v *)
Fixpoint append_totals (Y : list (string * list T)) (total_v : list (string * T))
  : result (list (string * list T)) :=
  match total_v with
  | [] => Ok Y
  | (column, t) :: rest =>
      match dict_get column Y with
      | Some ys => append_totals (dict_set column (ys ++ [t]) Y) rest
      | None => Raise (KeyError column)
      end
  end.

Definition samples : Type := (list nat * list (string * list T))%type.

(** The body of the two loops for one cell. *)
Definition add_cell (df : DataFrame) (y_columns : list string)
           (XY : samples) (cell : list Point) : result samples :=
  let x := length cell in
  if Nat.eqb x 0 then Ok XY
  else
    let X := fst XY ++ [x] in
    total_v <- foldM (add_point df y_columns) cell
                 (dict_fromkeys y_columns zero) ;;
    Y <- append_totals (snd XY) total_v ;;
    Ok (X, Y).

(** chunks[i][j] *)
Definition get_chunk (chunks : list (list (list Point))) (i j : nat)
  : result (list Point) :=
  match nth_error chunks i with
  | Some column =>
      match nth_error column j with
      | Some cell => Ok cell
      | None => Raise IndexError
      end
  | None => Raise IndexError
  end.

(** for i in range(chunk_width): for j in range(chunk_height): ... *)
Definition aggregate (df : DataFrame) (y_columns : list string)
           (chunks : list (list (list Point)))
           (chunk_width chunk_height : nat) : result samples :=
  foldM (fun XY i =>
           foldM (fun XY j =>
                    cell <- get_chunk chunks i j ;;
                    add_cell df y_columns XY cell)
                 (seq 0 chunk_height) XY)
        (seq 0 chunk_width)
        ([], dict_fromkeys y_columns []).

End Aggregation.

(** ** The formulas in exact arithmetic

    These definitions follow the textbook formulas, not the code; the
    theorems below compare the code with them. *)

Open Scope R_scope.

Definition Rsum (l : list R) : R := fold_right Rplus 0 l.

(** sum of w_i * a_i *)
Definition weighted_sum (w a : list R) : R :=
  Rsum (map (fun p => fst p * snd p) (combine w a)).

Definition weighted_mean (w a : list R) : R := weighted_sum w a / Rsum w.

(** sum of w_i (x_i - mean_w X) (y_i - mean_w y), over the weight total *)
Definition weighted_covariance (w X y : list R) : R :=
  Rsum (map (fun p => fst p * ((fst (snd p) - weighted_mean w X) *
                               (snd (snd p) - weighted_mean w y)))
            (combine w (combine X y)))
  / Rsum w.

Definition mean (a : list R) : R := Rsum a / INR (length a).

(** Pearson's r of two samples, unweighted. *)
Definition pearson_r (X y : list R) : R :=
  Rsum (map (fun p => (fst p - mean X) * (snd p - mean y)) (combine X y))
  / sqrt (Rsum (map (fun x => (x - mean X) ^ 2) X) *
          Rsum (map (fun v => (v - mean y) ^ 2) y)).

(** Weighted residual and total sums of squares. *)
Definition RSS (w yhat y : list R) : R :=
  Rsum (map (fun p => fst p * (fst (snd p) - snd (snd p)) ^ 2)
            (combine w (combine yhat y))).

Definition TSS (w y : list R) : R :=
  Rsum (map (fun p => fst p * (snd p - weighted_mean w y) ^ 2) (combine w y)).

(** The weights of the spec: weight_func(X_i, y_i), or all ones. *)
Definition spec_weights (X y : list R) (weight_func : option (R -> R -> R))
  : list R :=
  match weight_func with
  | Some wf => map (fun p => wf (fst p) (snd p)) (combine X y)
  | None => repeat 1 (length X)
  end.

Close Scope R_scope.

(** The total of a column over the rows of the table that lie at a point of
    the cell, each row once, NaN as 0. *)
Definition rows_in_cell {T : Type} `{Scalar T} (df : DataFrame) (cell : list Point)
  : list Row :=
  filter (fun r => existsb (fun p => seqb (lon r) (px p) && seqb (lat r) (py p))
                           cell)
         (rows df).

Definition column_total {T : Type} `{Scalar T} (df : DataFrame)
           (cell : list Point) (column : string) : T :=
  py_sum (map (fun r => value r column) (rows_in_cell df cell)).

(** What the loop adds up for a column and a cell: for each point of the
    cell in turn, the values of the rows at that point. *)
Definition point_total {T : Type} `{Scalar T} (df : DataFrame)
           (column : string) (cell : list Point) : T :=
  fold_left (fun t p =>
               sadd t (py_sum (map (fun r => value r column) (matching_rows df p))))
            cell zero.

(** The cells of the grid in the order of the two loops, i then j. *)
Definition cells_row_major {T : Type} (chunks : list (list (list (@Point T))))
           (chunk_width chunk_height : nat) : list (list Point) :=
  flat_map (fun i => map (fun j => nth j (nth i chunks []) []) (seq 0 chunk_height))
           (seq 0 chunk_width).

Definition nonempty_cells {T : Type} (cells : list (list (@Point T)))
  : list (list Point) :=
  filter (fun cell => negb (Nat.eqb (length cell) 0)) cells.

(** A dict given by its keys and the value at each key. *)
Definition keyed {V : Type} (keys : list string) (f : string -> V)
  : list (string * V) :=
  map (fun k => (k, f k)) keys.

Definition upd {V : Type} (f : string -> V) (k : string) (v : V) : string -> V :=
  fun c => if String.eqb c k then v else f c.

(** A float64 that is NaN or an infinity. *)
Definition not_finite (v : float) : Prop :=
  v = nan \/ v = infinity \/ v = neg_infinity.

(** ** Solvers and inputs of the examples *)

(** Least squares for a line (degree 1, no weights) in closed form,
    highest power first, in the order of numpy.polyfit: the solution of the
    normal equations for two or more samples, and for a single sample
    (x0, y0), where the system has rank 1, the minimum-norm solution of the
    column-scaled system, y0/(2 x0) and y0/2.  numpy.polyfit solves the
    same system by a singular value decomposition, so its float64
    coefficients can differ from these in the last bits. *)
Definition lstsq_line {T : Type} `{Scalar T}
           (X y : list T) (deg : nat) (w : option (list T)) : result (list T) :=
  match X, y with
  | [x0], [y0] =>
      let two := of_nat 2 in
      Ok [sdiv y0 (smul two x0); sdiv y0 two]
  | _, _ =>
      let n := of_nat (length X) in
      let mx := sdiv (np_sum X) n in
      let my := sdiv (np_sum y) n in
      let dx := arr_sub_scalar X mx in
      let slope := sdiv (np_sum (zip_with smul dx (arr_sub_scalar y my)))
                        (np_sum (arr_square dx)) in
      Ok [slope; ssub my (smul slope mx)]
  end.

(** An optimizer that finds no parameters. *)
Definition curve_fit_no_convergence {T : Type}
           (f : list T -> list T -> result (list T))
           (X y : list T) (sigma : option (list T)) (absolute_sigma : bool)
  : result (list T) :=
  Raise (RuntimeError "Optimal parameters not found: Number of calls to function has reached maxfev").

(** An array of small integers as float64. *)
Definition floats (l : list nat) : list float := map of_nat l.

(** Two rows of the table at the same coordinates, and the cell that holds
    their two points. *)
Definition row_at (lo la v : float) : Row :=
  {| lon := lo; lat := la; value := fun _ => v |}.

Definition twin_rows : DataFrame :=
  {| labels := ["v"%string];
     rows := [row_at 0 0 10; row_at 0 0 20] |}.

Definition twin_cell : list Point :=
  [ {| px := 0%float; py := 0%float |}; {| px := 0%float; py := 0%float |} ].

(** Four points at distinct coordinates on a 2 x 2 grid, one measurement
    column with the values 10, 20, NaN and 5. *)
Definition point_at (x y : float) : Point := {| px := x; py := y |}.

Definition four_rows : DataFrame :=
  {| labels := ["m"%string];
     rows := [row_at 0 0 10; row_at 0 1 20; row_at 1 1 nan; row_at 3 3 5] |}.

Definition two_by_two : list (list (list Point)) :=
  [ [ [point_at 0 0; point_at 0 1; point_at 1 1]; [] ];
    [ []; [point_at 3 3] ] ].

(** ** Notions used by the further properties *)

(** The six events of a column that went through the loop. *)
Definition column_events {T : Type} (X sorted_X : list T)
           (cy : string * list T) (events : list (@event T)) : Prop :=
  exists ys log_ys p rsquared log_rsquared,
    events =
    [Scatter X (snd cy);
     Plot sorted_X ys (fst cy ++ " (linear)");
     Plot sorted_X log_ys (fst cy ++ " (logarithmic)");
     LogInfo (fst cy ++ " - Correlation coefficient: ") p;
     LogInfo (fst cy ++ " - R-squared (linear): ") rsquared;
     LogInfo (fst cy ++ " - R-squared (logarithmic): ") log_rsquared].

(** An event of the loop over the columns: not the legend, not the show. *)
Definition loop_event {T : Type} (e : @event T) : Prop :=
  match e with
  | Legend | Show => False
  | _ => True
  end.

(** Point(xy) for a row of the table *)
Definition point_of_row {T : Type} (r : @Row T) : Point :=
  {| px := lon r; py := lat r |}.

(** An optimizer that returns the given parameters. *)
Definition curve_fit_returning {T : Type} (popt : list T)
           (f : list T -> list T -> result (list T))
           (X y : list T) (sigma : option (list T)) (absolute_sigma : bool)
  : result (list T) :=
  Ok popt.

(** Two rows at different coordinates, in exact arithmetic, and the cell
    that holds their points. *)
Definition apart_rows : @DataFrame R :=
  {| labels := ["v"%string];
     rows := [ {| lon := 0%R; lat := 0%R; value := fun _ => 10%R |};
               {| lon := 1%R; lat := 0%R; value := fun _ => 20%R |} ] |}.

Definition apart_cell : list (@Point R) :=
  [ {| px := 0%R; py := 0%R |}; {| px := 1%R; py := 0%R |} ].

(** ** Float64 notions

    Predicates on the specification of a float64 value ([Prim2SF]), used
    for what the statistics compute in float64. *)

(** The float64 value 1. *)
Definition SF1 : spec_float := S754_finite false 4503599627370496 (-52)%Z.

(** A value that is not above one, read off its sign, exponent and
    mantissa: NaN, a zero, negative, or m * 2^e with m <= 2^(-e). *)
Definition not_above_one (r : spec_float) : Prop :=
  match r with
  | S754_finite false m e => (e <= 0 /\ Zpos m <= 2 ^ (- e))%Z
  | S754_infinity false => False
  | _ => True
  end.

(** Not negative: NaN, a zero of either sign, or a positive value. *)
Definition sf_nonneg (r : spec_float) : Prop :=
  match r with
  | S754_finite s _ _ | S754_infinity s => s = false
  | _ => True
  end.

(** As [sf_nonneg], without the negative zero. *)
Definition sf_positive_sign (r : spec_float) : Prop :=
  match r with
  | S754_finite s _ _ | S754_infinity s | S754_zero s => s = false
  | S754_nan => True
  end.

Definition sf_zero (r : spec_float) : Prop :=
  match r with S754_zero _ => True | _ => False end.

Definition sf_finite (r : spec_float) : Prop :=
  match r with S754_zero _ | S754_finite _ _ _ => True | _ => False end.

(** Samples whose squares underflow to zero, and samples whose squares
    overflow to infinity. *)
Definition tiny_y : list float := [0x1p-600%float; 0x1p-599%float].

Definition huge_y : list float := [0x1p600%float; (-0x1p600)%float].

(** A float64 total of the terms, added in any order and any grouping,
    from zero or from a term: what a summation of the terms returns
    however it blocks its additions. *)
Inductive sums_to : list float -> float -> Prop :=
| sums_nil : sums_to [] 0%float
| sums_one (x : float) : sums_to [x] x
| sums_app (a b : list float) (u v : float) :
    sums_to a u -> sums_to b v -> sums_to (a ++ b) (u + v)%float
| sums_perm (a b : list float) (u : float) :
    Permutation.Permutation a b -> sums_to a u -> sums_to b u.

(** * Properties *)

(** ** Generic facts about the array operations *)

Section NumpyFacts.
Context {T : Type} `{Scalar T}.

Lemma zip_with_length (f : T -> T -> T) (a b : list T) :
  length a = length b -> length (zip_with f a b) = length a.
Proof.
  revert b; induction a as [|x a IH]; intros [|y b] E; simpl in *;
    try discriminate; auto.
Qed.

Lemma zip_with_combine (f : T -> T -> T) (a b : list T) :
  zip_with f a b = map (fun p => f (fst p) (snd p)) (combine a b).
Proof.
  revert b; induction a as [|x a IH]; intros [|y b]; simpl; auto.
  now rewrite IH.
Qed.

Lemma zip_with_comm (f : T -> T -> T) (a b : list T) :
  (forall u v, f u v = f v u) -> zip_with f a b = zip_with f b a.
Proof.
  intros Hf. revert b; induction a as [|x a IH]; intros [|y b]; simpl; auto.
  now rewrite IH, Hf.
Qed.

Lemma broadcast_same_length (f : T -> T -> T) (a b : list T) :
  length a = length b -> broadcast f a b = Ok (zip_with f a b).
Proof.
  intros E. unfold broadcast. now rewrite E, Nat.eqb_refl.
Qed.

Lemma arr_sub_scalar_length (a : list T) (s : T) :
  length (arr_sub_scalar a s) = length a.
Proof. apply length_map. Qed.

Lemma arr_square_length (a : list T) : length (arr_square a) = length a.
Proof. apply length_map. Qed.

Lemma ones_length (n : nat) : length (ones (T:=T) n) = n.
Proof. apply repeat_length. Qed.

Lemma polyval_length (c x : list T) : length (polyval c x) = length x.
Proof. apply length_map. Qed.

(** [np_average] raises what its guard says and otherwise returns the
    quotient. *)
Lemma np_average_guard (a w : list T) :
  np_average a w =
  match average_guard (length a) w with
  | Some e => Raise e
  | None => Ok (average_value a w)
  end.
Proof.
  unfold np_average, average_guard.
  destruct (negb (Nat.eqb (length a) (length w))); auto.
  destruct (seqb (np_sum w) zero); auto.
Qed.

Lemma average_guard_None (n : nat) (w : list T) :
  average_guard n w = None -> n = length w /\ seqb (np_sum w) zero = false.
Proof.
  unfold average_guard.
  destruct (Nat.eqb n (length w)) eqn:E; simpl; try discriminate.
  destruct (seqb (np_sum w) zero); try discriminate.
  apply Nat.eqb_eq in E. auto.
Qed.

Lemma average_guard_intro (n : nat) (w : list T) :
  n = length w -> seqb (np_sum w) zero = false -> average_guard n w = None.
Proof.
  intros -> Z. unfold average_guard. now rewrite Nat.eqb_refl, Z.
Qed.

Lemma weights_comprehension_shift wf (a b : T) (X y : list T) (l : list nat) :
  weights_comprehension wf (a :: X) (b :: y) (map S l) =
  weights_comprehension wf X y l.
Proof.
  induction l as [|i l IH]; simpl; auto.
  now rewrite IH.
Qed.

Lemma weights_comprehension_eq wf (X y : list T) :
  length X = length y ->
  weights_comprehension wf X y (seq 0 (length X)) = Ok (zip_with wf X y).
Proof.
  revert y; induction X as [|x X IH]; intros [|b y] E; simpl in *;
    try discriminate; auto.
  rewrite <- seq_shift, weights_comprehension_shift, IH by congruence.
  reflexivity.
Qed.

Lemma compute_weights_eq (X y : list T) (wf : T -> T -> T) :
  length X = length y ->
  compute_weights X y (Some wf) = Ok (Some (zip_with wf X y)).
Proof.
  intros E. unfold compute_weights.
  now rewrite weights_comprehension_eq.
Qed.

Lemma weights_of_length (X y : list T) weight_func :
  length X = length y -> length (weights_of X y weight_func) = length X.
Proof.
  intros E. destruct weight_func; simpl.
  - now apply zip_with_length.
  - apply ones_length.
Qed.

(** For samples of equal length [covariance] raises what the guard of
    [np_average] says, and otherwise returns the value of its formula. *)
Lemma covariance_guard (X y w : list T) :
  length X = length y ->
  covariance X y (Some w) =
  match average_guard (length X) w with
  | Some e => Raise e
  | None => Ok (covariance_value X y w)
  end.
Proof.
  intros E. unfold covariance, default_weights.
  rewrite (np_average_guard X), (np_average_guard y), <- E.
  destruct (average_guard (length X) w) as [e|] eqn:G; cbn [bind]; auto.
  unfold arr_mul.
  rewrite broadcast_same_length
    by (rewrite !arr_sub_scalar_length; congruence).
  cbn [bind]. rewrite np_average_guard.
  rewrite zip_with_length, arr_sub_scalar_length, G
    by (rewrite !arr_sub_scalar_length; congruence).
  reflexivity.
Qed.

(** For samples of different lengths it raises: what the guard says for
    X, and otherwise the shape error of [np_average] on y. *)
Lemma covariance_mismatch (X y : list T) (weights : option (list T)) :
  length X <> length y ->
  covariance X y weights =
  match average_guard (length X) (default_weights X weights) with
  | Some e => Raise e
  | None =>
      Raise (TypeError "Axis must be specified when shapes of a and weights differ.")
  end.
Proof.
  intros E. unfold covariance.
  set (w := default_weights X weights).
  rewrite (np_average_guard X).
  destruct (average_guard (length X) w) as [e|] eqn:G; cbn [bind]; auto.
  apply average_guard_None in G. destruct G as [G _].
  unfold np_average.
  assert (N : Nat.eqb (length y) (length w) = false)
    by (apply Nat.eqb_neq; congruence).
  now rewrite N.
Qed.

Lemma correlation_coefficient_guard (X y w : list T) :
  length X = length y ->
  correlation_coefficient X y (Some w) =
  match average_guard (length X) w with
  | Some e => Raise e
  | None => Ok (correlation_value X y w)
  end.
Proof.
  intros E. unfold correlation_coefficient, default_weights.
  rewrite (covariance_guard X y), (covariance_guard X X),
    (covariance_guard y y), <- E by auto.
  destruct (average_guard (length X) w); reflexivity.
Qed.

Lemma correlation_coefficient_default (X y : list T) :
  correlation_coefficient X y None =
  correlation_coefficient X y (Some (ones (length X))).
Proof. reflexivity. Qed.

(** With equal lengths [coefficient_of_determination] raises what the
    guard of [np_average] says and otherwise returns 1 - rss/tss: the
    denominator is not tested. *)
Lemma coefficient_of_determination_guard
      (X y yhat : list T) trendline weight_func :
  length X = length y ->
  trendline X = Ok yhat -> length yhat = length y ->
  coefficient_of_determination X y trendline weight_func =
  match average_guard (length y) (weights_of X y weight_func) with
  | Some e => Raise e
  | None => Ok (determination_value (weights_of X y weight_func) yhat y)
  end.
Proof.
  intros E Ht Eh.
  pose proof (weights_of_length X y weight_func E) as Ew.
  unfold coefficient_of_determination.
  assert (W : match weight_func with
              | Some _ =>
                  ow <- compute_weights X y weight_func ;;
                  match ow with
                  | Some ws => Ok ws
                  | None => Raise (TypeError "unsupported operand type(s) for *")
                  end
              | None => Ok (ones (length X))
              end = Ok (weights_of X y weight_func)).
  { destruct weight_func as [wf|]; simpl weights_of; auto.
    now rewrite compute_weights_eq. }
  rewrite W. cbn [bind]. rewrite Ht. cbn [bind].
  rewrite np_average_guard.
  destruct (average_guard (length y) (weights_of X y weight_func));
    cbn [bind]; auto.
  unfold arr_mul, arr_sub.
  rewrite broadcast_same_length
    by (rewrite arr_square_length, arr_sub_scalar_length; congruence).
  cbn [bind]. rewrite broadcast_same_length by assumption. cbn [bind].
  rewrite broadcast_same_length
    by (rewrite arr_square_length, zip_with_length; congruence).
  reflexivity.
Qed.

Lemma covariance_value_comm (X y w : list T) :
  (forall u v : T, smul u v = smul v u) ->
  covariance_value X y w = covariance_value y X w.
Proof.
  intros Hm. unfold covariance_value. cbv zeta.
  now rewrite (zip_with_comm smul (arr_sub_scalar X _)).
Qed.

(** Symmetry holds for any scalars whose product commutes: values and
    exceptions agree. *)
Lemma correlation_coefficient_comm (X y : list T) (weights : option (list T)) :
  (forall u v : T, smul u v = smul v u) ->
  length X = length y ->
  correlation_coefficient X y weights = correlation_coefficient y X weights.
Proof.
  intros Hm E.
  assert (S : forall w, correlation_coefficient X y (Some w) =
                        correlation_coefficient y X (Some w)).
  { intros w.
    rewrite (correlation_coefficient_guard X y), (correlation_coefficient_guard y X),
      <- E by auto.
    destruct (average_guard (length X) w); auto.
    unfold correlation_value.
    now rewrite (covariance_value_comm X y), (Hm (covariance_value X X w)). }
  destruct weights as [w|].
  - apply S.
  - rewrite !correlation_coefficient_default, <- E. apply S.
Qed.

End NumpyFacts.

(** ** The statistics in exact arithmetic *)

Section ExactArithmetic.
Open Scope R_scope.

Ltac to_R :=
  cbn [sadd ssub smul sdiv ssqrt seqb sisnan of_nat Scalar_R] in *.

Lemma fold_left_Rplus (l : list R) (a : R) : fold_left Rplus l a = a + Rsum l.
Proof.
  revert a; induction l as [|x l IH]; intros a; simpl.
  - lra.
  - rewrite IH. lra.
Qed.

Lemma np_sum_R (l : list R) : np_sum l = Rsum l.
Proof.
  unfold np_sum, zero. to_R. simpl INR. rewrite fold_left_Rplus. lra.
Qed.

Lemma seqb_R_false (a : R) : a <> 0 -> seqb a zero = false.
Proof.
  intros Ha. unfold zero. to_R. simpl INR. unfold R_eqb.
  destruct (Req_dec_T a 0); [contradiction | reflexivity].
Qed.

Lemma average_guard_R (n : nat) (w : list R) :
  n = length w -> Rsum w <> 0 -> average_guard n w = None.
Proof.
  intros E Hw. apply average_guard_intro; auto.
  rewrite np_sum_R. now apply seqb_R_false.
Qed.

Lemma Rsum_zip_with_mul (a w : list R) :
  Rsum (zip_with Rmult a w) = weighted_sum w a.
Proof.
  unfold weighted_sum.
  revert w; induction a as [|x a IH]; intros [|v w]; simpl; auto.
  rewrite IH. lra.
Qed.

Lemma average_value_R (a w : list R) : average_value a w = weighted_mean w a.
Proof.
  unfold average_value, weighted_mean. to_R. rewrite !np_sum_R.
  change (@smul R Scalar_R) with Rmult. now rewrite Rsum_zip_with_mul.
Qed.

Lemma Rsum_centered_products (mx my : R) (X y w : list R) :
  Rsum (zip_with Rmult
          (zip_with Rmult (arr_sub_scalar X mx) (arr_sub_scalar y my)) w) =
  Rsum (map (fun p => fst p * ((fst (snd p) - mx) * (snd (snd p) - my)))
            (combine w (combine X y))).
Proof.
  revert y w; induction X as [|x X IH]; intros [|b y] [|v w]; simpl; auto.
  to_R. rewrite IH. lra.
Qed.

Lemma covariance_value_R (X y w : list R) :
  covariance_value X y w = weighted_covariance w X y.
Proof.
  unfold covariance_value, weighted_covariance. cbv zeta.
  rewrite (average_value_R X w), (average_value_R y w).
  unfold average_value. to_R. rewrite !np_sum_R.
  change (@smul R Scalar_R) with Rmult.
  now rewrite Rsum_centered_products.
Qed.

Lemma covariance_R (X y w : list R) :
  length X = length w -> length y = length w -> Rsum w <> 0 ->
  covariance X y (Some w) = Ok (weighted_covariance w X y).
Proof.
  intros EX Ey Hw.
  rewrite covariance_guard, average_guard_R, covariance_value_R by congruence.
  reflexivity.
Qed.

Lemma correlation_coefficient_R (X y w : list R) :
  length X = length w -> length y = length w -> Rsum w <> 0 ->
  correlation_coefficient X y (Some w) =
  Ok (weighted_covariance w X y /
      sqrt (weighted_covariance w X X * weighted_covariance w y y)).
Proof.
  intros EX Ey Hw.
  rewrite correlation_coefficient_guard, average_guard_R by congruence.
  unfold correlation_value. now rewrite !covariance_value_R.
Qed.

Lemma Rsum_repeat (c : R) (n : nat) : Rsum (repeat c n) = INR n * c.
Proof.
  induction n as [|n IH].
  - simpl. lra.
  - rewrite S_INR. simpl. rewrite IH. lra.
Qed.

Lemma Rsum_const_weights {A : Type} (c : R) (g : A -> R) (l : list A) :
  Rsum (map (fun p => fst p * g (snd p)) (combine (repeat c (length l)) l)) =
  c * Rsum (map g l).
Proof.
  induction l as [|a l IH]; simpl.
  - lra.
  - rewrite IH. lra.
Qed.

Lemma map_combine_diag {B : Type} (f : R * R -> B) (l : list R) :
  map f (combine l l) = map (fun x => f (x, x)) l.
Proof.
  induction l as [|a l IH]; simpl; auto. now rewrite IH.
Qed.

Lemma Rsum_squares_nonneg {A : Type} (g : A -> R) (l : list A) :
  0 <= Rsum (map (fun a => g a ^ 2) l).
Proof.
  induction l as [|a l IH].
  - simpl. lra.
  - change (0 <= g a ^ 2 + Rsum (map (fun a => g a ^ 2) l)).
    pose proof (pow2_ge_0 (g a)). lra.
Qed.

Lemma nonempty_INR {A : Type} (l : list A) : l <> [] -> 0 < INR (length l).
Proof.
  intros Hl. apply lt_0_INR. destruct l; [congruence | simpl; lia].
Qed.

Lemma weighted_mean_const (c : R) (a : list R) :
  c <> 0 -> a <> [] -> weighted_mean (repeat c (length a)) a = mean a.
Proof.
  intros Hc Ha. unfold weighted_mean, mean, weighted_sum.
  rewrite (Rsum_const_weights c (fun x => x)), map_id, Rsum_repeat.
  pose proof (nonempty_INR a Ha).
  field. split; lra.
Qed.

Lemma weighted_covariance_const (c : R) (X y : list R) :
  c <> 0 -> X <> [] -> length X = length y ->
  weighted_covariance (repeat c (length X)) X y =
  Rsum (map (fun p => (fst p - mean X) * (snd p - mean y)) (combine X y))
  / INR (length X).
Proof.
  intros Hc HX E.
  assert (Hy : y <> []) by (destruct X, y; simpl in *; congruence).
  assert (MX : weighted_mean (repeat c (length X)) X = mean X)
    by now apply weighted_mean_const.
  assert (MY : weighted_mean (repeat c (length X)) y = mean y)
    by (rewrite E; now apply weighted_mean_const).
  assert (EL : length X = length (combine X y))
    by (rewrite length_combine, <- E; lia).
  assert (Hn : INR (length (combine X y)) <> 0).
  { rewrite <- EL. pose proof (nonempty_INR X HX). lra. }
  unfold weighted_covariance. rewrite MX, MY, EL.
  rewrite (Rsum_const_weights c
             (fun q => (fst q - mean X) * (snd q - mean y))).
  rewrite Rsum_repeat. field. split; assumption.
Qed.

Lemma pearson_scale (a sx sy n : R) :
  0 <= sx -> 0 <= sy -> 0 < n ->
  (a / n) / sqrt ((sx / n) * (sy / n)) = a / sqrt (sx * sy).
Proof.
  intros Hx Hy Hn.
  assert (Hi : 0 < / n) by now apply Rinv_0_lt_compat.
  replace ((sx / n) * (sy / n)) with ((sx * sy) * (/ n * / n))
    by (unfold Rdiv; ring).
  rewrite sqrt_mult by nra.
  rewrite sqrt_square by lra.
  unfold Rdiv. rewrite Rinv_mult, Rinv_inv.
  replace (a * / n * (/ sqrt (sx * sy) * n))
    with (a * / sqrt (sx * sy) * (n * / n)) by ring.
  rewrite Rinv_r by lra. ring.
Qed.

Lemma equal_weights_pearson (c : R) (X y : list R) :
  c <> 0 -> X <> [] -> length X = length y ->
  correlation_coefficient X y (Some (repeat c (length X))) = Ok (pearson_r X y).
Proof.
  intros Hc HX E.
  assert (Hy : y <> []) by (destruct X, y; simpl in *; congruence).
  pose proof (nonempty_INR X HX) as Hn.
  rewrite correlation_coefficient_R.
  - rewrite (weighted_covariance_const c X y Hc HX E).
    rewrite (weighted_covariance_const c X X Hc HX eq_refl).
    replace (weighted_covariance (repeat c (length X)) y y)
      with (Rsum (map (fun p => (fst p - mean y) * (snd p - mean y))
                      (combine y y)) / INR (length X))
      by (rewrite E; symmetry; now apply weighted_covariance_const).
    rewrite !(map_combine_diag (fun p => (fst p - _) * (snd p - _))).
    cbn [fst snd].
    rewrite (map_ext (fun x => (x - mean X) * (x - mean X))
                     (fun x => (x - mean X) ^ 2)) by (intros; ring).
    rewrite (map_ext (fun x => (x - mean y) * (x - mean y))
                     (fun x => (x - mean y) ^ 2)) by (intros; ring).
    unfold pearson_r. f_equal.
    apply pearson_scale; auto.
    + apply (Rsum_squares_nonneg (fun x => x - mean X)).
    + apply (Rsum_squares_nonneg (fun v => v - mean y)).
  - now rewrite repeat_length.
  - now rewrite repeat_length.
  - rewrite Rsum_repeat. apply Rmult_integral_contrapositive_currified; lra.
Qed.

(** C1: for equal-length samples and a weight vector of nonzero total,
    [correlation_coefficient] is cov(X,y) / sqrt(cov(X,X) * cov(y,y)) for
    the weighted covariance of the module; omitted weights are all ones;
    and for equal weights it is Pearson's unweighted coefficient. *)
Theorem correlation_coefficient_pearson (X y : list R) :
  length X = length y -> X <> [] ->
  (forall w, length w = length X -> Rsum w <> 0 ->
     covariance X y (Some w) = Ok (weighted_covariance w X y) /\
     covariance X X (Some w) = Ok (weighted_covariance w X X) /\
     covariance y y (Some w) = Ok (weighted_covariance w y y) /\
     correlation_coefficient X y (Some w) =
     Ok (weighted_covariance w X y /
         sqrt (weighted_covariance w X X * weighted_covariance w y y))) /\
  correlation_coefficient X y None =
  correlation_coefficient X y (Some (repeat 1 (length X))) /\
  (forall c, c <> 0 ->
     correlation_coefficient X y (Some (repeat c (length X))) =
     Ok (pearson_r X y)) /\
  correlation_coefficient X y None = Ok (pearson_r X y).
Proof.
  intros E HX. repeat split.
  - apply covariance_R; congruence.
  - apply covariance_R; congruence.
  - apply covariance_R; congruence.
  - apply correlation_coefficient_R; congruence.
  - intros c Hc. now apply equal_weights_pearson.
  - change (correlation_coefficient X y None)
      with (correlation_coefficient X y (Some (repeat 1 (length X)))).
    apply equal_weights_pearson; auto; lra.
Qed.

Lemma correlation_coefficient_pearson_witness :
  length [1; 2; 3] = length [2; 4; 7] /\
  [1; 2; 3] <> [] /\
  correlation_coefficient [1; 2; 3] [2; 4; 7] None =
  Ok (pearson_r [1; 2; 3] [2; 4; 7]).
Proof.
  split; [reflexivity|]. split; [discriminate|].
  apply (correlation_coefficient_pearson [1; 2; 3] [2; 4; 7]);
    [reflexivity | discriminate].
Defined.

Lemma weights_of_R (X y : list R) weight_func :
  weights_of X y weight_func = spec_weights X y weight_func.
Proof.
  destruct weight_func; simpl; auto. apply zip_with_combine.
Qed.

Lemma tss_value_R (w y : list R) : tss_value w y = TSS w y.
Proof.
  unfold tss_value, TSS. rewrite np_sum_R, average_value_R.
  generalize (weighted_mean w y) as m. intros m.
  change (@smul R Scalar_R) with Rmult.
  revert y; induction w as [|v w IH]; intros [|b y]; simpl; auto.
  to_R. rewrite <- IH. unfold arr_square, arr_sub_scalar. to_R. ring.
Qed.

Lemma rss_value_R (w yhat y : list R) : rss_value w yhat y = RSS w yhat y.
Proof.
  unfold rss_value, RSS. rewrite np_sum_R.
  change (@smul R Scalar_R) with Rmult. change (@ssub R Scalar_R) with Rminus.
  revert yhat y; induction w as [|v w IH]; intros [|a yhat] [|b y]; simpl; auto.
  to_R. rewrite <- IH. unfold arr_square. to_R. ring.
Qed.

Lemma coefficient_of_determination_R (X y yhat : list R) trendline weight_func :
  length X = length y ->
  trendline X = Ok yhat -> length yhat = length y ->
  Rsum (spec_weights X y weight_func) <> 0 ->
  coefficient_of_determination X y trendline weight_func =
  Ok (1 - RSS (spec_weights X y weight_func) yhat y /
          TSS (spec_weights X y weight_func) y).
Proof.
  intros E Ht Eh Hw.
  rewrite (coefficient_of_determination_guard X y yhat trendline weight_func E Ht Eh).
  rewrite weights_of_R, average_guard_R; auto.
  - unfold determination_value. now rewrite tss_value_R, rss_value_R.
  - rewrite <- weights_of_R, weights_of_length; auto.
Qed.

Lemma RSS_exact_fit (w y : list R) : RSS w y y = 0.
Proof.
  unfold RSS.
  revert y; induction w as [|v w IH]; intros [|b y]; simpl; auto.
  rewrite IH. ring.
Qed.

Lemma weighted_squares_nonneg {A : Type} (g : A -> R) (w : list R) (l : list A) :
  Forall (fun v => 0 <= v) w ->
  0 <= Rsum (map (fun p => fst p * g (snd p) ^ 2) (combine w l)).
Proof.
  intros Hw. revert l; induction Hw as [|v w Hv Hw IH]; intros [|a l].
  - simpl; lra.
  - simpl; lra.
  - simpl; lra.
  - change (0 <= v * g a ^ 2 +
                 Rsum (map (fun p => fst p * g (snd p) ^ 2) (combine w l))).
    specialize (IH l). pose proof (pow2_ge_0 (g a)). nra.
Qed.

(** In exact arithmetic, for equal-length X and y, a trendline whose
    values on X are yhat, a nonzero weight total and a nonzero TSS,
    [coefficient_of_determination] is 1 - RSS/TSS, with the weights of the
    weight function or all ones; and when the trendline passes through
    every sample the result is 1. *)
Lemma determination_exact_fit_R
      (X y yhat : list R) trendline (weight_func : option (R -> R -> R)) :
  length X = length y ->
  trendline X = Ok yhat -> length yhat = length y ->
  Rsum (spec_weights X y weight_func) <> 0 ->
  TSS (spec_weights X y weight_func) y <> 0 ->
  coefficient_of_determination X y trendline weight_func =
  Ok (1 - RSS (spec_weights X y weight_func) yhat y /
          TSS (spec_weights X y weight_func) y) /\
  ((forall i, nth_error yhat i = nth_error y i) ->
   coefficient_of_determination X y trendline weight_func = Ok 1).
Proof.
  intros E Ht Eh Hw Htss.
  pose proof (coefficient_of_determination_R X y yhat trendline weight_func
                E Ht Eh Hw) as HR.
  split; [exact HR|].
  intros Hfit. rewrite HR.
  assert (yhat = y) as -> by now apply nth_error_ext.
  rewrite RSS_exact_fit. f_equal. field. exact Htss.
Qed.

(** In exact arithmetic, with nonnegative weights of positive total and a
    nonzero total sum of squares the coefficient of determination is at
    most 1. *)
Lemma determination_at_most_1_R
      (X y yhat : list R) trendline (weight_func : option (R -> R -> R)) :
  length X = length y ->
  trendline X = Ok yhat -> length yhat = length y ->
  Forall (fun v => 0 <= v) (spec_weights X y weight_func) ->
  0 < Rsum (spec_weights X y weight_func) ->
  TSS (spec_weights X y weight_func) y <> 0 ->
  exists r2,
    coefficient_of_determination X y trendline weight_func = Ok r2 /\
    r2 <= 1.
Proof.
  intros E Ht Eh Hnn Hpos Htss.
  eexists. split.
  - apply coefficient_of_determination_R; eauto. lra.
  - set (w := spec_weights X y weight_func) in *.
    assert (0 <= RSS w yhat y).
    { unfold RSS.
      apply (weighted_squares_nonneg (fun q : R * R => fst q - snd q)
                                     w (combine yhat y) Hnn). }
    assert (0 <= TSS w y).
    { unfold TSS.
      apply (weighted_squares_nonneg (fun v => v - weighted_mean w y) w y Hnn). }
    assert (0 < TSS w y) by lra.
    assert (0 <= RSS w yhat y / TSS w y).
    { apply Rmult_le_pos; [assumption|].
      apply Rlt_le. now apply Rinv_0_lt_compat. }
    lra.
Qed.

(** It can be negative: a trendline that is zero everywhere, on the
    samples (1, 1) and (2, 2). *)
Lemma determination_negative_R :
  exists r2,
    coefficient_of_determination [1; 2] [1; 2]
      (fun x => Ok (map (fun _ => 0) x)) None = Ok r2 /\
    r2 < 0.
Proof.
  eexists. split.
  - apply (coefficient_of_determination_R [1; 2] [1; 2] [0; 0]);
      try reflexivity. simpl. lra.
  - unfold RSS, TSS, weighted_mean, weighted_sum. simpl. lra.
Qed.

End ExactArithmetic.

(** ** Symmetry of the correlation coefficient *)

Section FloatFacts.
Open Scope float_scope.

Lemma float_mul_comm (x y : float) : x * y = y * x.
Proof.
  apply Prim2SF_inj. rewrite !mul_spec. unfold SF64mul, SFmul.
  destruct (Prim2SF x) as [sx|sx| |sx mx ex], (Prim2SF y) as [sy|sy| |sy my ey];
    try reflexivity; try (now rewrite xorb_comm).
  now rewrite xorb_comm, Pos.mul_comm, Z.add_comm.
Qed.

Lemma float_zero_inv (d : float) :
  (d =? 0) = true -> exists s, Prim2SF d = S754_zero s.
Proof.
  rewrite eqb_spec. change (Prim2SF 0) with (S754_zero false).
  destruct (Prim2SF d) as [s|[|]| |[|] m e]; eauto;
    unfold SFeqb, SFcompare; discriminate.
Qed.

Lemma float_nan_intro (v : float) : Prim2SF v = S754_nan -> v = nan.
Proof. intros E. apply Prim2SF_inj. now rewrite E. Qed.

Lemma float_infinity_intro (v : float) (s : bool) :
  Prim2SF v = S754_infinity s -> v = infinity \/ v = neg_infinity.
Proof.
  intros E. destruct s; [right | left]; apply Prim2SF_inj; now rewrite E.
Qed.

(** x / 0 and x / nan are never finite. *)
Lemma float_div_by_zero (x d : float) : (d =? 0) = true -> not_finite (x / d).
Proof.
  intros Hd. destruct (float_zero_inv d Hd) as [s Hs].
  assert (Hq : Prim2SF (x / d) = S754_nan \/
               exists b, Prim2SF (x / d) = S754_infinity b).
  { rewrite div_spec, Hs. unfold SF64div, SFdiv.
    destruct (Prim2SF x) as [sx|sx| |sx mx ex]; eauto. }
  destruct Hq as [Hq | [b Hq]].
  - left. now apply float_nan_intro.
  - right. now apply (float_infinity_intro _ b).
Qed.

Lemma float_div_by_nan (x : float) : x / nan = nan.
Proof.
  apply float_nan_intro. rewrite div_spec. change (Prim2SF nan) with S754_nan.
  unfold SF64div, SFdiv. destruct (Prim2SF x); reflexivity.
Qed.

(** The square root of a product with a zero factor is a zero or NaN. *)
Lemma float_sqrt_zero_product (a b : float) :
  (a =? 0) = true \/ (b =? 0) = true ->
  (PrimFloat.sqrt (a * b) =? 0) = true \/ PrimFloat.sqrt (a * b) = nan.
Proof.
  intros Hab.
  assert (Hp : (exists s, Prim2SF (a * b) = S754_zero s) \/
               Prim2SF (a * b) = S754_nan).
  { rewrite mul_spec. unfold SF64mul, SFmul.
    destruct Hab as [Ha | Hb].
    - destruct (float_zero_inv a Ha) as [s ->].
      destruct (Prim2SF b); eauto.
    - destruct (float_zero_inv b Hb) as [s ->].
      destruct (Prim2SF a); eauto. }
  destruct Hp as [[s Hp] | Hp].
  - left. rewrite eqb_spec, sqrt_spec, Hp. destruct s; reflexivity.
  - right. apply float_nan_intro. now rewrite sqrt_spec, Hp.
Qed.

Lemma float_one_minus_not_finite (v : float) :
  not_finite v -> not_finite (1 - v).
Proof.
  intros [-> | [-> | ->]]; unfold not_finite; vm_compute; auto.
Qed.

End FloatFacts.

(** C9: [correlation_coefficient] is symmetric in its two samples, for
    every weight vector and for omitted weights, in exact arithmetic and in
    float64 arithmetic alike; when one side raises the other raises the
    same exception. *)
Theorem correlation_coefficient_symmetric :
  (forall (X y : list R) (weights : option (list R)),
      length X = length y ->
      correlation_coefficient X y weights = correlation_coefficient y X weights) /\
  (forall (X y : list float) (weights : option (list float)),
      length X = length y ->
      correlation_coefficient X y weights = correlation_coefficient y X weights).
Proof.
  split; intros X y weights E; apply correlation_coefficient_comm; auto.
  - exact Rmult_comm.
  - exact float_mul_comm.
Qed.

Lemma correlation_coefficient_symmetric_witness :
  correlation_coefficient (floats [1; 2; 4]) (floats [3; 1; 2]) None =
  correlation_coefficient (floats [3; 1; 2]) (floats [1; 2; 4]) None.
Proof.
  apply (proj2 correlation_coefficient_symmetric
               (floats [1; 2; 4]) (floats [3; 1; 2]) None).
  reflexivity.
Defined.

(** ** Degenerate statistics *)

(** C3 (as the code has it): with matching lengths and a nonzero weight
    total neither function raises, whatever the denominator; in float64 a
    zero variance makes [correlation_coefficient] return NaN or an
    infinity, and a zero total sum of squares makes
    [coefficient_of_determination] return NaN or an infinity. *)
Theorem degenerate_statistics_not_finite :
  (forall X y w : list float,
      length X = length w -> length y = length w ->
      seqb (np_sum w) zero = false ->
      correlation_coefficient X y (Some w) = Ok (correlation_value X y w) /\
      (seqb (covariance_value X X w) zero = true \/
       seqb (covariance_value y y w) zero = true ->
       not_finite (correlation_value X y w))) /\
  (forall (X y yhat : list float) trendline weight_func,
      length X = length y ->
      trendline X = Ok yhat -> length yhat = length y ->
      seqb (np_sum (weights_of X y weight_func)) zero = false ->
      coefficient_of_determination X y trendline weight_func =
      Ok (determination_value (weights_of X y weight_func) yhat y) /\
      (seqb (tss_value (weights_of X y weight_func) y) zero = true ->
       not_finite (determination_value (weights_of X y weight_func) yhat y))).
Proof.
  split.
  - intros X y w EX Ey Z. split.
    + rewrite correlation_coefficient_guard, average_guard_intro by congruence.
      reflexivity.
    + intros Hvar. unfold correlation_value.
      destruct (float_sqrt_zero_product _ _ Hvar) as [Hd | Hd].
      * now apply float_div_by_zero.
      * cbn [sdiv ssqrt smul Scalar_float]. rewrite Hd, float_div_by_nan.
        now left.
  - intros X y yhat trendline weight_func E Ht Eh Z. split.
    + rewrite (coefficient_of_determination_guard X y yhat trendline weight_func
                 E Ht Eh).
      rewrite average_guard_intro; auto.
      now rewrite weights_of_length.
    + intros Htss. unfold determination_value.
      apply float_one_minus_not_finite. now apply float_div_by_zero.
Qed.

Lemma degenerate_statistics_not_finite_witness :
  correlation_coefficient (floats [1; 1]) (floats [1; 2]) (Some (floats [1; 1])) =
  Ok (correlation_value (floats [1; 1]) (floats [1; 2]) (floats [1; 1])) /\
  not_finite (correlation_value (floats [1; 1]) (floats [1; 2]) (floats [1; 1])).
Proof.
  destruct (proj1 degenerate_statistics_not_finite
                  (floats [1; 1]) (floats [1; 2]) (floats [1; 1])
                  eq_refl eq_refl eq_refl) as [Hret Hnf].
  split; [exact Hret|].
  apply Hnf. left. reflexivity.
Defined.

(** On a constant X the correlation coefficient is returned as NaN, and
    on a constant y the coefficient of determination as minus infinity:
    no exception, no sentinel. *)
Lemma degenerate_statistics_counterexample :
  correlation_coefficient (floats [1; 1]) (floats [1; 2]) None = Ok nan /\
  coefficient_of_determination (floats [1; 2]) (floats [3; 3])
    (fun x => Ok x) None = Ok neg_infinity.
Proof. split; reflexivity. Qed.

(** ** Samples of different lengths *)

(** C6 (as the code has it): for samples of different lengths
    [covariance] raises and never returns a number.  The exception is the
    shape error of numpy.average, except when the weights in use have the
    length of X and a zero total: then it is ZeroDivisionError. *)
Theorem covariance_length_mismatch
        {T : Type} `{Scalar T} (X y : list T) (weights : option (list T)) :
  length X <> length y ->
  covariance X y weights =
  Raise (if Nat.eqb (length X) (length (default_weights X weights)) &&
            seqb (np_sum (default_weights X weights)) zero
         then ZeroDivisionError "Weights sum to zero, can't be normalized"
         else TypeError "Axis must be specified when shapes of a and weights differ.").
Proof.
  intros E. rewrite covariance_mismatch by assumption.
  unfold average_guard.
  destruct (Nat.eqb (length X) (length (default_weights X weights)));
    cbn [negb andb]; auto.
  destruct (seqb (np_sum (default_weights X weights)) zero); auto.
Qed.

Lemma covariance_length_mismatch_witness :
  covariance (floats [1; 2]) (floats [3]) None =
  Raise (TypeError "Axis must be specified when shapes of a and weights differ.").
Proof.
  assert (E : length (floats [1; 2]) <> length (floats [3])) by (simpl; lia).
  exact (covariance_length_mismatch (floats [1; 2]) (floats [3]) None E).
Defined.

(** With an empty X the exception is not about the lengths. *)
Lemma covariance_length_mismatch_counterexample :
  length (floats []) <> length (floats [3]) /\
  covariance (floats []) (floats [3]) None =
  Raise (ZeroDivisionError "Weights sum to zero, can't be normalized").
Proof. split; [simpl; lia | reflexivity]. Qed.

(** ** The input path check *)

Lemma input_check_exits (input_path : fs_entry) :
  input_check input_path =
  ExitWith 1 "The specified input is not a file or does not exist!" <->
  input_path = NoEntry.
Proof.
  destruct input_path; simpl; split; intros E; try reflexivity; discriminate.
Qed.

(** C5 (the code on a directory): a directory is not a file, and the
    check lets it through: no error is logged and the script does not exit
    there. *)
Theorem input_check_directory :
  is_file Directory = false /\ input_check Directory = Proceed.
Proof. split; reflexivity. Qed.

(** ** The aggregation loop *)

(** C4 (the code on two rows at one location): the cell holds two points,
    each point selects both rows, and the column total is 60, twice the
    total of the rows in the cell. *)
Theorem aggregate_counts_twin_rows_twice :
  aggregate twin_rows ["v"%string] [[twin_cell]] 1 1 =
  Ok ([2], [("v"%string, [60%float])]) /\
  column_total twin_rows twin_cell "v" = 30%float.
Proof. split; reflexivity. Qed.

(** ** What the aggregation loop computes *)

Section AggregationFacts.
Context {T : Type} `{Scalar T}.

Lemma dict_get_keyed {V : Type} (keys : list string) (f : string -> V) k :
  In k keys -> dict_get k (keyed keys f) = Some (f k).
Proof.
  induction keys as [|c keys IH]; simpl; [tauto|].
  intros [-> | Hin].
  - now rewrite String.eqb_refl.
  - destruct (String.eqb k c) eqn:E.
    + apply String.eqb_eq in E. now subst.
    + now apply IH.
Qed.

Lemma dict_set_keyed {V : Type} (keys : list string) (f : string -> V) k v :
  NoDup keys -> In k keys ->
  dict_set k v (keyed keys f) = keyed keys (upd f k v).
Proof.
  unfold keyed, upd. induction keys as [|c keys IH]; simpl; [tauto|].
  intros ND Hin. inversion ND as [|? ? Hc ND']; subst.
  destruct (String.eqb k c) eqn:E.
  - apply String.eqb_eq in E. subst c. rewrite String.eqb_refl. f_equal.
    apply map_ext_in. intros c Hin'.
    destruct (String.eqb c k) eqn:E; auto.
    apply String.eqb_eq in E. now subst.
  - rewrite String.eqb_sym, E. f_equal. apply IH; auto.
    destruct Hin as [-> | Hin]; auto.
    now rewrite String.eqb_refl in E.
Qed.

Lemma dict_set_fresh {V : Type} (keys : list string) (f : string -> V) k v :
  ~ In k keys -> dict_set k v (keyed keys f) = keyed keys f ++ [(k, v)].
Proof.
  unfold keyed. induction keys as [|c keys IH]; simpl; auto.
  intros Hk. destruct (String.eqb k c) eqn:E.
  - apply String.eqb_eq in E. subst. tauto.
  - f_equal. apply IH. tauto.
Qed.

Lemma keyed_ext {V : Type} (keys : list string) (f g : string -> V) :
  (forall k, In k keys -> f k = g k) -> keyed keys f = keyed keys g.
Proof.
  intros E. unfold keyed. apply map_ext_in. intros k Hk. now rewrite E.
Qed.

Lemma dict_fromkeys_keyed {V : Type} (keys : list string) (v : V) :
  NoDup keys -> dict_fromkeys keys v = keyed keys (fun _ => v).
Proof.
  unfold dict_fromkeys. change (@nil (string * V)) with (keyed [] (fun _ => v)).
  change keys with ([] ++ keys) at 1 3.
  generalize (@nil string) as pre.
  induction keys as [|k keys IH]; intros pre ND; simpl.
  - now rewrite app_nil_r.
  - rewrite dict_set_fresh.
    + change (keyed pre (fun _ => v) ++ [(k, v)])
        with (keyed pre (fun _ => v) ++ keyed [k] (fun _ => v)).
      unfold keyed at 1 2. rewrite <- map_app. fold (keyed (pre ++ [k]) (fun _ => v)).
      replace (pre ++ k :: keys) with ((pre ++ [k]) ++ keys)
        by now rewrite <- app_assoc.
      apply IH. now rewrite <- app_assoc.
    + intros Hin. apply NoDup_remove_2 in ND. apply ND.
      apply in_or_app. now left.
Qed.

(** One point adds, to the total of every column, the values of the rows
    at that point. *)
Lemma add_columns_keyed (y_columns : list string) (selected : list Row)
      (ks : list string) (f : string -> T) :
  NoDup y_columns -> NoDup ks -> incl ks y_columns ->
  foldM (add_column y_columns selected) ks (keyed y_columns f) =
  Ok (keyed y_columns
        (fun c => if in_dec string_dec c ks
                  then sadd (f c) (py_sum (map (fun r => value r c) selected))
                  else f c)).
Proof.
  intros ND. revert f. induction ks as [|k ks IH]; intros f NDk Hincl; simpl.
  - reflexivity.
  - assert (Hk : In k y_columns) by (apply Hincl; now left).
    inversion NDk as [|? ? Hnk NDk']; subst.
    unfold add_column at 1.
    assert (C : Nat.ltb 1 (count_occ string_dec y_columns k) = false).
    { apply Nat.ltb_ge. now apply (proj1 (NoDup_count_occ string_dec y_columns)). }
    rewrite C, dict_get_keyed, dict_set_keyed by assumption.
    cbn [bind]. rewrite IH; auto.
    + f_equal. apply keyed_ext. intros c Hc. unfold upd.
      destruct (string_dec k c) as [->|Hne].
      * rewrite String.eqb_refl.
        destruct (in_dec string_dec c ks); [contradiction | reflexivity].
      * assert (E : String.eqb c k = false)
          by (apply String.eqb_neq; congruence).
        rewrite E. destruct (in_dec string_dec c ks); reflexivity.
    + intros c Hc. apply Hincl. now right.
Qed.

Lemma add_point_keyed (df : DataFrame) (y_columns : list string)
      (f : string -> T) (point : @Point T) :
  NoDup y_columns -> check_labels df y_columns = Ok tt ->
  add_point df y_columns (keyed y_columns f) point =
  Ok (keyed y_columns
        (fun c => sadd (f c)
                       (py_sum (map (fun r => value r c) (matching_rows df point))))).
Proof.
  intros ND L. unfold add_point. rewrite L. cbn [bind].
  rewrite add_columns_keyed; auto using incl_refl.
  f_equal. apply keyed_ext. intros c Hc.
  destruct (in_dec string_dec c y_columns); [reflexivity | contradiction].
Qed.

Lemma add_points_keyed (df : DataFrame) (y_columns : list string)
      (cell : list (@Point T)) (f : string -> T) :
  NoDup y_columns -> check_labels df y_columns = Ok tt ->
  foldM (add_point df y_columns) cell (keyed y_columns f) =
  Ok (keyed y_columns
        (fun c => fold_left
                    (fun t p =>
                       sadd t (py_sum (map (fun r => value r c)
                                           (matching_rows df p))))
                    cell (f c))).
Proof.
  intros ND L. revert f. induction cell as [|p cell IH]; intros f; simpl.
  - reflexivity.
  - rewrite add_point_keyed by assumption. cbn [bind]. now rewrite IH.
Qed.

Lemma append_totals_keyed (y_columns ks : list string)
      (ys : string -> list T) (t : string -> T) :
  NoDup y_columns -> NoDup ks -> incl ks y_columns ->
  append_totals (keyed y_columns ys) (keyed ks t) =
  Ok (keyed y_columns
        (fun c => if in_dec string_dec c ks then ys c ++ [t c] else ys c)).
Proof.
  intros ND. revert ys.
  induction ks as [|k ks IH]; intros ys NDk Hincl; simpl.
  - reflexivity.
  - assert (Hk : In k y_columns) by (apply Hincl; now left).
    inversion NDk as [|? ? Hnk NDk']; subst.
    rewrite dict_get_keyed, dict_set_keyed by assumption.
    fold (keyed ks t). rewrite IH; auto.
    + f_equal. apply keyed_ext. intros c Hc. unfold upd.
      destruct (string_dec k c) as [->|Hne].
      * rewrite String.eqb_refl.
        destruct (in_dec string_dec c ks); [contradiction | reflexivity].
      * assert (E : String.eqb c k = false)
          by (apply String.eqb_neq; congruence).
        rewrite E. destruct (in_dec string_dec c ks); reflexivity.
    + intros c Hc. apply Hincl. now right.
Qed.

(** An empty cell leaves the samples as they are; any other cell appends
    its point count to X and one total to every column of Y. *)
Lemma add_cell_keyed (df : DataFrame) (y_columns : list string)
      (X : list nat) (ys : string -> list T) (cell : list (@Point T)) :
  NoDup y_columns -> check_labels df y_columns = Ok tt ->
  add_cell df y_columns (X, keyed y_columns ys) cell =
  Ok (if Nat.eqb (length cell) 0 then (X, keyed y_columns ys)
      else (X ++ [length cell],
            keyed y_columns (fun c => ys c ++ [point_total df c cell]))).
Proof.
  intros ND L. unfold add_cell.
  destruct (Nat.eqb (length cell) 0); [reflexivity|].
  rewrite dict_fromkeys_keyed, add_points_keyed by assumption.
  cbn [bind snd fst]. rewrite append_totals_keyed; auto using incl_refl.
  cbn [bind]. do 2 f_equal. apply keyed_ext. intros c Hc.
  destruct (in_dec string_dec c y_columns); [reflexivity | contradiction].
Qed.

Lemma add_cells_keyed (df : DataFrame) (y_columns : list string)
      (cells : list (list (@Point T))) (X : list nat) (ys : string -> list T) :
  NoDup y_columns -> check_labels df y_columns = Ok tt ->
  foldM (add_cell df y_columns) cells (X, keyed y_columns ys) =
  Ok (X ++ map (@length _) (nonempty_cells cells),
      keyed y_columns
        (fun c => ys c ++ map (point_total df c) (nonempty_cells cells))).
Proof.
  intros ND L. revert X ys.
  induction cells as [|cell cells IH]; intros X ys; simpl.
  - rewrite app_nil_r. f_equal. f_equal. apply keyed_ext.
    intros; now rewrite app_nil_r.
  - rewrite add_cell_keyed by assumption. cbn [bind].
    destruct (Nat.eqb (length cell) 0); cbn [negb].
    + apply IH.
    + rewrite IH. simpl. rewrite <- app_assoc. do 2 f_equal.
      apply keyed_ext. intros; now rewrite <- app_assoc.
Qed.

Lemma foldM_app {A S : Type} (f : S -> A -> result S) (l1 l2 : list A) (s : S) :
  foldM f (l1 ++ l2) s = (s' <- foldM f l1 s ;; foldM f l2 s').
Proof.
  revert s; induction l1 as [|a l1 IH]; intros s; simpl; auto.
  destruct (f s a); simpl; auto.
Qed.

Lemma get_chunk_nth (chunks : list (list (list (@Point T)))) (i j : nat) :
  i < length chunks -> j < length (nth i chunks []) ->
  get_chunk chunks i j = Ok (nth j (nth i chunks []) []).
Proof.
  intros Hi Hj. unfold get_chunk.
  rewrite (nth_error_nth' chunks [] Hi).
  now rewrite (nth_error_nth' (nth i chunks []) [] Hj).
Qed.

Lemma column_cells (df : DataFrame) (y_columns : list string)
      (chunks : list (list (list (@Point T)))) (i : nat) (js : list nat) XY :
  i < length chunks ->
  Forall (fun j => j < length (nth i chunks [])) js ->
  foldM (fun XY j => cell <- get_chunk chunks i j ;;
                     add_cell df y_columns XY cell) js XY =
  foldM (add_cell df y_columns)
        (map (fun j => nth j (nth i chunks []) []) js) XY.
Proof.
  intros Hi Hjs. revert XY.
  induction Hjs as [|j js Hj Hjs IH]; intros XY; simpl; auto.
  rewrite get_chunk_nth by assumption. cbn [bind].
  destruct (add_cell df y_columns XY (nth j (nth i chunks []) [])); simpl; auto.
Qed.

Lemma grid_cells (df : DataFrame) (y_columns : list string)
      (chunks : list (list (list (@Point T)))) (chunk_height : nat)
      (idx : list nat) XY :
  Forall (fun i => i < length chunks /\
                   chunk_height <= length (nth i chunks [])) idx ->
  foldM (fun XY i =>
           foldM (fun XY j => cell <- get_chunk chunks i j ;;
                              add_cell df y_columns XY cell)
                 (seq 0 chunk_height) XY) idx XY =
  foldM (add_cell df y_columns)
        (flat_map (fun i => map (fun j => nth j (nth i chunks []) [])
                                (seq 0 chunk_height)) idx) XY.
Proof.
  intros His. revert XY.
  induction His as [|i idx [Hi Hh] His IH]; intros XY; simpl; auto.
  rewrite foldM_app, column_cells; auto.
  - destruct (foldM (add_cell df y_columns) _ XY); simpl; auto.
  - apply Forall_forall. intros j Hj. apply in_seq in Hj. lia.
Qed.

(** On a grid of at least [chunk_width] columns of at least
    [chunk_height] cells, with distinct requested labels that are columns
    of the table, the loop visits the cells in the order i then j, skips
    the empty ones, and for every other cell appends the point count to X
    and, to every column of Y, the total over the points of the cell of
    the values (NaN as 0) of the rows at the point's coordinates. *)
Lemma aggregate_eq (df : DataFrame) (y_columns : list string)
      (chunks : list (list (list (@Point T)))) (chunk_width chunk_height : nat) :
  chunk_width <= length chunks ->
  (forall i, i < chunk_width -> chunk_height <= length (nth i chunks [])) ->
  NoDup y_columns -> check_labels df y_columns = Ok tt ->
  aggregate df y_columns chunks chunk_width chunk_height =
  let cells := nonempty_cells (cells_row_major chunks chunk_width chunk_height) in
  Ok (map (@length _) cells,
      keyed y_columns (fun c => map (point_total df c) cells)).
Proof.
  intros Hw Hh ND L. unfold aggregate.
  rewrite grid_cells.
  - rewrite dict_fromkeys_keyed, add_cells_keyed by assumption. reflexivity.
  - apply Forall_forall. intros i Hi. apply in_seq in Hi.
    split; [lia | apply Hh; lia].
Qed.

Lemma aggregate_X_length (df : DataFrame) (y_columns : list string)
      (chunks : list (list (list (@Point T)))) (chunk_width chunk_height : nat) :
  chunk_width <= length chunks ->
  (forall i, i < chunk_width -> chunk_height <= length (nth i chunks [])) ->
  NoDup y_columns -> check_labels df y_columns = Ok tt ->
  exists X Y,
    aggregate df y_columns chunks chunk_width chunk_height = Ok (X, Y) /\
    length X =
    length (nonempty_cells (cells_row_major chunks chunk_width chunk_height)) /\
    Forall (fun cy => length (snd cy) = length X) Y.
Proof.
  intros Hw Hh ND L. do 2 eexists. split.
  - now apply aggregate_eq.
  - cbv zeta. rewrite length_map. split; [reflexivity|].
    unfold keyed. apply Forall_forall. intros [c ys] Hin.
    apply in_map_iff in Hin. destruct Hin as (k & E & _).
    inversion E; subst. cbn [snd]. now rewrite length_map.
Qed.

End AggregationFacts.

(** In exact arithmetic the total the loop adds up is the total of the
    rows in the cell whenever no two points of the cell share their
    coordinates; with shared coordinates a row is counted once per point. *)

Section AggregationExact.
Open Scope R_scope.

Lemma R_eqb_true (a b : R) : R_eqb a b = true <-> a = b.
Proof.
  unfold R_eqb. destruct (Req_dec_T a b); split; intros; congruence.
Qed.

Lemma py_sum_R (l : list R) : py_sum l = Rsum l.
Proof.
  unfold py_sum, nan_to_zero. cbn [sisnan Scalar_R]. rewrite map_id.
  apply np_sum_R.
Qed.

Lemma Rsum_cons (x : R) (l : list R) : Rsum (x :: l) = x + Rsum l.
Proof. reflexivity. Qed.

Lemma Rsum_filter_disjoint (v : @Row R -> R) (a b : @Row R -> bool)
      (l : list (@Row R)) :
  (forall r, In r l -> a r = true -> b r = false) ->
  Rsum (map v (filter (fun r => a r || b r) l)) =
  Rsum (map v (filter a l)) + Rsum (map v (filter b l)).
Proof.
  induction l as [|r l IH]; intros D.
  - simpl. lra.
  - assert (IH' := IH (fun r' Hr' => D r' (or_intror Hr'))).
    specialize (D r (or_introl eq_refl)).
    cbn [filter]. destruct (a r).
    + rewrite D by reflexivity. cbn [orb map]. rewrite !Rsum_cons, IH'. lra.
    + destruct (b r); cbn [orb map]; rewrite ?Rsum_cons, IH'; lra.
Qed.

Lemma point_total_R (df : @DataFrame R) (column : string) (cell : list (@Point R)) :
  point_total df column cell =
  Rsum (map (fun p => Rsum (map (fun r => value r column) (matching_rows df p)))
            cell).
Proof.
  unfold point_total, zero. cbn [sadd of_nat Scalar_R]. simpl INR.
  rewrite <- (Rplus_0_l (Rsum _)). generalize 0 as t.
  induction cell as [|p cell IH]; intros t; simpl.
  - lra.
  - rewrite IH, py_sum_R. lra.
Qed.

Lemma point_total_distinct (df : @DataFrame R) (column : string)
      (cell : list (@Point R)) :
  NoDup (map (fun p => (px p, py p)) cell) ->
  point_total df column cell = column_total df cell column.
Proof.
  intros ND. rewrite point_total_R. unfold column_total, rows_in_cell.
  rewrite py_sum_R.
  induction cell as [|p cell IH]; cbn [map existsb].
  - induction (rows df) as [|r l IHl]; simpl; auto.
  - inversion ND as [|? ? Hp ND']; subst.
    rewrite Rsum_cons.
    rewrite (Rsum_filter_disjoint (fun r => value r column)
               (fun r => seqb (lon r) (px p) && seqb (lat r) (py p))
               (fun r => existsb
                           (fun q => seqb (lon r) (px q) && seqb (lat r) (py q))
                           cell)).
    + rewrite IH by assumption. reflexivity.
    + intros r _ Hr. apply andb_prop in Hr. destruct Hr as [Hx Hy].
      apply R_eqb_true in Hx, Hy.
      apply not_true_is_false. intros Hex.
      apply existsb_exists in Hex. destruct Hex as (q & Hq & Hm).
      apply andb_prop in Hm. destruct Hm as [Hqx Hqy].
      apply R_eqb_true in Hqx, Hqy.
      apply Hp. apply in_map_iff. exists q. split; [|assumption].
      f_equal; congruence.
Qed.

End AggregationExact.

(** The scenario of four points: three in one cell, one in another, two
    empty cells; NaN counts as 0. *)
Example aggregate_four_points :
  aggregate four_rows ["m"%string] two_by_two 2 2 =
  Ok ([3; 1], [("m"%string, [30%float; 5%float])]).
Proof. reflexivity. Qed.

(** ** Trendline fitting *)

Section FittingFacts.
Context {T : Type} `{Scalar T}.
Variable lstsq : list T -> list T -> nat -> option (list T) -> result (list T).
Variable curve_fit :
  (list T -> list T -> result (list T)) ->
  list T -> list T -> option (list T) -> bool -> result (list T).
Variable np_log : T -> T.

Lemma trendline_metrics_default (X y yhat : list T) trendline :
  length X = length y ->
  average_guard (length X) (ones (length X)) = None ->
  trendline X = Ok yhat -> length yhat = length y ->
  _generate_trendline_metrics X y trendline None =
  Ok (correlation_value X y (ones (length X)),
      determination_value (ones (length X)) yhat y).
Proof.
  intros E G Ht Eh. unfold _generate_trendline_metrics.
  cbn [compute_weights bind].
  rewrite correlation_coefficient_default, correlation_coefficient_guard, G
    by assumption.
  cbn [bind].
  rewrite (coefficient_of_determination_guard X y yhat trendline None E Ht Eh).
  cbn [weights_of]. rewrite <- E, G. reflexivity.
Qed.

Lemma nonempty_length_eqb (X : list T) :
  X <> [] -> Nat.eqb (length X) 0 = false.
Proof. destruct X; [congruence | reflexivity]. Qed.

Lemma polyfit_checked (X y : list T) (degree : nat) :
  X <> [] -> length X = length y ->
  polyfit lstsq X y degree None = lstsq X y degree None.
Proof.
  intros HX E. unfold polyfit.
  now rewrite nonempty_length_eqb, E, Nat.eqb_refl.
Qed.

Lemma polynomial_trendline_returns (X y c : list T) (degree : nat) :
  X <> [] -> length X = length y ->
  average_guard (length X) (ones (length X)) = None ->
  lstsq X y degree None = Ok c ->
  generate_polynomial_trendline lstsq X y None degree =
  Ok (poly1d c,
      correlation_value X y (ones (length X)),
      determination_value (ones (length X)) (polyval c X) y).
Proof.
  intros HX E G Hc. unfold generate_polynomial_trendline.
  cbn [compute_weights bind].
  rewrite polyfit_checked, Hc by assumption. cbn [bind].
  rewrite (trendline_metrics_default X y (polyval c X)); auto.
  rewrite polyval_length. exact E.
Qed.

(** C8 (as the code has it): the polynomial fitter raises for an empty X
    and for samples of different lengths, and raises what the solver
    raises; it does not compare the number of samples with the degree:
    whenever the solver returns coefficients the trendline is returned,
    for every degree. *)
Theorem polynomial_trendline_sample_count (X y : list T) (degree : nat) :
  (X = [] ->
   generate_polynomial_trendline lstsq X y None degree =
   Raise (TypeError "expected non-empty vector for x")) /\
  (X <> [] -> length X <> length y ->
   generate_polynomial_trendline lstsq X y None degree =
   Raise (TypeError "expected x and y to have same length")) /\
  (X <> [] -> length X = length y ->
   forall e, lstsq X y degree None = Raise e ->
             generate_polynomial_trendline lstsq X y None degree = Raise e) /\
  (X <> [] -> length X = length y ->
   average_guard (length X) (ones (length X)) = None ->
   forall c, lstsq X y degree None = Ok c ->
             generate_polynomial_trendline lstsq X y None degree =
             Ok (poly1d c,
                 correlation_value X y (ones (length X)),
                 determination_value (ones (length X)) (polyval c X) y)).
Proof.
  repeat split.
  - intros ->. reflexivity.
  - intros HX E. unfold generate_polynomial_trendline, polyfit.
    cbn [compute_weights bind].
    apply Nat.eqb_neq in E. now rewrite nonempty_length_eqb, E.
  - intros HX E e He. unfold generate_polynomial_trendline.
    cbn [compute_weights bind]. now rewrite polyfit_checked, He.
  - intros HX E G c Hc. now apply polynomial_trendline_returns.
Qed.

Lemma generate_curve_fit_raises (X y : list T) f e :
  curve_fit f X y None false = Raise e ->
  generate_curve_fit curve_fit X y f None = Raise e.
Proof.
  intros He. unfold generate_curve_fit. cbn [compute_weights bind].
  now rewrite He.
Qed.

Lemma column_body_raises (X sorted_X : list T) column y out e :
  generate_curve_fit curve_fit X y (log_model np_log) None = Raise e ->
  exists out' e',
    column_body lstsq curve_fit np_log X sorted_X column y out =
    (out', Raise e').
Proof.
  intros He. unfold column_body.
  destruct (generate_polynomial_trendline lstsq X y None 1)
    as [[[trendline p] r]|e1]; eauto.
  destruct (trendline sorted_X) as [ys|e2]; eauto.
  rewrite He. eauto.
Qed.

Lemma column_body_curve_fit_raises (X sorted_X ys : list T) column y out
      trendline p r e :
  generate_polynomial_trendline lstsq X y None 1 = Ok (trendline, p, r) ->
  trendline sorted_X = Ok ys ->
  generate_curve_fit curve_fit X y (log_model np_log) None = Raise e ->
  column_body lstsq curve_fit np_log X sorted_X column y out =
  ((out ++ [Scatter X y]) ++ [Plot sorted_X ys (column ++ " (linear)")],
   Raise e).
Proof.
  intros Hp Ht He. unfold column_body. now rewrite Hp, Ht, He.
Qed.

Lemma column_loop_app (X sorted_X : list T) pre Y out :
  column_loop lstsq curve_fit np_log X sorted_X (pre ++ Y) out =
  match column_loop lstsq curve_fit np_log X sorted_X pre out with
  | (out', Ok _) => column_loop lstsq curve_fit np_log X sorted_X Y out'
  | (out', Raise e) => (out', Raise e)
  end.
Proof.
  revert out; induction pre as [|[column y] pre IH]; intros out; simpl; auto.
  destruct (column_body lstsq curve_fit np_log X sorted_X column y out)
    as [out' [u|e]]; auto.
Qed.

(** C7 (as the code has it): an exception of the optimizer leaves
    [generate_curve_fit] as it is, and the loop over the columns with it:
    the run ends in an exception at that column or before, and what it has
    done does not depend on the columns that follow, which are never
    processed. *)
Theorem curve_fit_failure_ends_run (X sorted_X : list T) column y e :
  curve_fit (log_model np_log) X y None false = Raise e ->
  generate_curve_fit curve_fit X y (log_model np_log) None = Raise e /\
  forall pre rest out,
  exists out' e',
    column_loop lstsq curve_fit np_log X sorted_X
                (pre ++ (column, y) :: rest) out = (out', Raise e') /\
    forall rest',
      column_loop lstsq curve_fit np_log X sorted_X
                  (pre ++ (column, y) :: rest') out = (out', Raise e').
Proof.
  intros He.
  pose proof (generate_curve_fit_raises X y _ e He) as Hg.
  split; [exact Hg|].
  intros pre rest out.
  destruct (column_loop lstsq curve_fit np_log X sorted_X pre out)
    as [out1 [u|e1]] eqn:Hpre.
  - destruct (column_body_raises X sorted_X column y out1 e Hg)
      as (out' & e' & Hb).
    exists out', e'. split; [|intros rest'];
      rewrite column_loop_app, Hpre; simpl; now rewrite Hb.
  - exists out1, e1. split; [|intros rest'];
      now rewrite column_loop_app, Hpre.
Qed.

End FittingFacts.

Lemma polynomial_trendline_sample_count_witness :
  exists p r,
    generate_polynomial_trendline lstsq_line (floats [1]) (floats [2]) None 1 =
    Ok (poly1d [1%float; 1%float], p, r).
Proof.
  do 2 eexists.
  apply (proj2 (proj2 (proj2
           (polynomial_trendline_sample_count lstsq_line
              (floats [1]) (floats [2]) 1)))).
  - discriminate.
  - reflexivity.
  - reflexivity.
  - reflexivity.
Defined.

(** One sample and degree 1: fewer samples than coefficients, and a
    trendline through the sample is returned, with NaN for both metrics. *)
Lemma polynomial_trendline_sample_count_counterexample :
  length (floats [1]) < 1 + 1 /\
  match generate_polynomial_trendline lstsq_line (floats [1]) (floats [2]) None 1
  with
  | Ok (trendline, p, r) =>
      trendline (floats [1]) = Ok (floats [2]) /\ p = nan /\ r = nan
  | Raise _ => False
  end.
Proof. split; [simpl; lia | vm_compute; auto]. Qed.

Lemma curve_fit_failure_ends_run_witness :
  exists out' e',
    column_loop lstsq_line curve_fit_no_convergence ln
                [1; 2]%R [1; 2]%R
                ([] ++ ("a"%string, [3; 5]%R) :: [("b"%string, [4; 4]%R)])
                [] = (out', Raise e').
Proof.
  destruct (proj2 (curve_fit_failure_ends_run lstsq_line curve_fit_no_convergence
                     ln [1; 2]%R [1; 2]%R "a"%string [3; 5]%R _ eq_refl)
                  [] [("b"%string, [4; 4]%R)] [])
    as (out' & e' & Hrun & _).
  exists out', e'. exact Hrun.
Defined.

(** Two columns and an optimizer that does not converge on the first: the
    run ends in the RuntimeError of the optimizer after the scatter plot
    and the linear trendline of the first column; the second column is
    never reached. *)
Lemma curve_fit_failure_ends_run_counterexample :
  exists ys,
    plot_columns lstsq_line curve_fit_no_convergence ln [1; 2]
                 [("a"%string, [3; 5]%R); ("b"%string, [4; 4]%R)] =
    ([Scatter [INR 1; INR 2] [3; 5]%R;
      Plot [INR 1; INR 2] ys "a (linear)"],
     Raise (RuntimeError "Optimal parameters not found: Number of calls to function has reached maxfev")).
Proof.
  eexists. unfold plot_columns. cbn [map sorted fold_right insert_sorted Nat.leb].
  cbn [column_loop].
  erewrite (column_body_curve_fit_raises lstsq_line curve_fit_no_convergence ln).
  - reflexivity.
  - apply polynomial_trendline_returns; try reflexivity; try discriminate.
    apply average_guard_R; [reflexivity|]. simpl. lra.
  - reflexivity.
  - reflexivity.
Qed.

(** The scenario of the exact line: the samples (1,2), (2,4), (3,6) give
    the trendline 2x, correlation 1 and R-squared 1. *)
Example linear_fit_scenario :
  match generate_polynomial_trendline lstsq_line
          (floats [1; 2; 3]) (floats [2; 4; 6]) None 1
  with
  | Ok (trendline, p, r) =>
      trendline (floats [1; 2; 3]) = Ok (floats [2; 4; 6]) /\
      p = 1%float /\ r = 1%float
  | Raise _ => False
  end.
Proof. vm_compute; auto. Qed.

(** * Further properties of the script *)

(** ** The weights *)

Section WeightFacts.
Context {T : Type} `{Scalar T}.

Lemma zip_with_length_le (f : T -> T -> T) (a b : list T) :
  length a <= length b -> length (zip_with f a b) = length a.
Proof.
  revert b; induction a as [|x a IH]; intros [|y b] L; simpl in *;
    try lia; auto.
  rewrite IH; lia.
Qed.

Lemma weights_comprehension_le wf (X y : list T) :
  length X <= length y ->
  weights_comprehension wf X y (seq 0 (length X)) = Ok (zip_with wf X y).
Proof.
  revert y; induction X as [|x X IH]; intros [|b y] L; simpl in *;
    try lia; auto.
  rewrite <- seq_shift, weights_comprehension_shift, IH by lia.
  reflexivity.
Qed.

Lemma weights_comprehension_short wf (X y : list T) :
  length y < length X ->
  weights_comprehension wf X y (seq 0 (length X)) = Raise IndexError.
Proof.
  revert y; induction X as [|x X IH]; intros [|b y] L; simpl in *;
    try lia; auto.
  rewrite <- seq_shift, weights_comprehension_shift, IH by lia.
  reflexivity.
Qed.

(** [compute_weights] without a weight function gives no weights; with
    one it gives weight_func(X[i], y[i]) for every index of X, reading
    only the first len(X) entries of y, and raises IndexError when y is
    shorter than X. *)
Theorem compute_weights_cases (X y : list T) (wf : T -> T -> T) :
  compute_weights X y None = Ok None /\
  (length X <= length y ->
   compute_weights X y (Some wf) = Ok (Some (zip_with wf X y)) /\
   length (zip_with wf X y) = length X) /\
  (length y < length X ->
   compute_weights X y (Some wf) = Raise IndexError).
Proof.
  split; [reflexivity|]. split.
  - intros L. unfold compute_weights.
    rewrite weights_comprehension_le by assumption.
    split; [reflexivity | now apply zip_with_length_le].
  - intros L. unfold compute_weights.
    now rewrite weights_comprehension_short.
Qed.

(** For samples of equal length [correlation_coefficient] has three
    outcomes, decided by the weights alone: the shape error when their
    number differs from that of the samples, ZeroDivisionError when their
    total is zero, and the value of the formula otherwise. *)
Theorem correlation_coefficient_outcomes (X y w : list T) :
  length X = length y ->
  (length w <> length X ->
   correlation_coefficient X y (Some w) =
   Raise (TypeError "Axis must be specified when shapes of a and weights differ.")) /\
  (length w = length X -> seqb (np_sum w) zero = true ->
   correlation_coefficient X y (Some w) =
   Raise (ZeroDivisionError "Weights sum to zero, can't be normalized")) /\
  (length w = length X -> seqb (np_sum w) zero = false ->
   correlation_coefficient X y (Some w) = Ok (correlation_value X y w)).
Proof.
  intros E. rewrite correlation_coefficient_guard by assumption.
  unfold average_guard. repeat split.
  - intros L. assert (N : Nat.eqb (length X) (length w) = false)
      by (apply Nat.eqb_neq; congruence).
    now rewrite N.
  - intros L Z. now rewrite L, Nat.eqb_refl, Z.
  - intros L Z. now rewrite L, Nat.eqb_refl, Z.
Qed.

(** For samples of different lengths [coefficient_of_determination]
    raises: IndexError from the weight function when y is the shorter
    one, and otherwise the shape error of numpy.average. *)
Theorem coefficient_of_determination_length_mismatch
        (X y yhat : list T) trendline (weight_func : option (T -> T -> T)) :
  length X <> length y ->
  trendline X = Ok yhat ->
  coefficient_of_determination X y trendline weight_func =
  Raise (match weight_func with
         | Some _ =>
             if Nat.ltb (length y) (length X) then IndexError
             else TypeError "Axis must be specified when shapes of a and weights differ."
         | None =>
             TypeError "Axis must be specified when shapes of a and weights differ."
         end).
Proof.
  intros E Ht. unfold coefficient_of_determination.
  destruct weight_func as [wf|].
  - destruct (Nat.ltb (length y) (length X)) eqn:L.
    + apply Nat.ltb_lt in L. unfold compute_weights.
      now rewrite weights_comprehension_short.
    + apply Nat.ltb_ge in L. unfold compute_weights.
      rewrite weights_comprehension_le by assumption.
      cbn [bind]. rewrite Ht. cbn [bind].
      rewrite np_average_guard. unfold average_guard.
      assert (N : Nat.eqb (length y) (length (zip_with wf X y)) = false).
      { apply Nat.eqb_neq. rewrite zip_with_length_le by assumption. congruence. }
      now rewrite N.
  - cbn [bind]. rewrite Ht. cbn [bind].
    rewrite np_average_guard. unfold average_guard.
    assert (N : Nat.eqb (length y) (length (ones (T:=T) (length X))) = false).
    { apply Nat.eqb_neq. rewrite ones_length. congruence. }
    now rewrite N.
Qed.

(** When the weights in use have the length of the samples and a zero
    total, [coefficient_of_determination] raises ZeroDivisionError. *)
Lemma coefficient_of_determination_zero_total
      (X y yhat : list T) trendline (weight_func : option (T -> T -> T)) :
  length X = length y ->
  trendline X = Ok yhat -> length yhat = length y ->
  seqb (np_sum (weights_of X y weight_func)) zero = true ->
  coefficient_of_determination X y trendline weight_func =
  Raise (ZeroDivisionError "Weights sum to zero, can't be normalized").
Proof.
  intros E Ht Eh Z.
  rewrite (coefficient_of_determination_guard X y yhat trendline weight_func
             E Ht Eh).
  unfold average_guard.
  now rewrite weights_of_length, <- E, Nat.eqb_refl, Z.
Qed.

(** The two metrics of a trendline are computed with the same weights:
    those of the weight function, or all ones. *)
Lemma trendline_metrics_eq (X y yhat : list T) trendline weight_func :
  length X = length y ->
  average_guard (length X) (weights_of X y weight_func) = None ->
  trendline X = Ok yhat -> length yhat = length y ->
  _generate_trendline_metrics X y trendline weight_func =
  Ok (correlation_value X y (weights_of X y weight_func),
      determination_value (weights_of X y weight_func) yhat y).
Proof.
  intros E G Ht Eh. unfold _generate_trendline_metrics.
  assert (C : p_value <- (weights <- compute_weights X y weight_func ;;
                          correlation_coefficient X y weights) ;;
              r_squared <- coefficient_of_determination X y trendline weight_func ;;
              Ok (p_value, r_squared) =
              Ok (correlation_value X y (weights_of X y weight_func),
                  determination_value (weights_of X y weight_func) yhat y)).
  { assert (W : (weights <- compute_weights X y weight_func ;;
                 correlation_coefficient X y weights) =
                correlation_coefficient X y (Some (weights_of X y weight_func))).
    { destruct weight_func as [wf|].
      - now rewrite compute_weights_eq.
      - reflexivity. }
    rewrite W, correlation_coefficient_guard, G by assumption.
    cbn [bind].
    rewrite (coefficient_of_determination_guard X y yhat trendline weight_func
               E Ht Eh).
    rewrite <- E, G. reflexivity. }
  destruct (compute_weights X y weight_func); exact C.
Qed.

End WeightFacts.

(** ** The fitters and the plotting loop *)

Section FitterFacts.
Context {T : Type} `{Scalar T}.
Variable lstsq : list T -> list T -> nat -> option (list T) -> result (list T).
Variable curve_fit :
  (list T -> list T -> result (list T)) ->
  list T -> list T -> option (list T) -> bool -> result (list T).
Variable np_log : T -> T.

Lemma compute_weights_weights_of (X y : list T) weight_func :
  length X = length y ->
  compute_weights X y weight_func =
  Ok (match weight_func with
      | Some _ => Some (weights_of X y weight_func)
      | None => None
      end).
Proof.
  intros E. destruct weight_func as [wf|]; [|reflexivity].
  now rewrite compute_weights_eq.
Qed.

(** With a weight function the polynomial fitter hands the same weights
    to numpy.polyfit and to both metrics; the trendline it returns is the
    polynomial of the solver's coefficients. *)
Theorem generate_polynomial_trendline_weighted
        (X y c : list T) (weight_func : option (T -> T -> T)) (degree : nat) :
  X <> [] -> length X = length y ->
  average_guard (length X) (weights_of X y weight_func) = None ->
  lstsq X y degree
        (match weight_func with
         | Some _ => Some (weights_of X y weight_func)
         | None => None
         end) = Ok c ->
  generate_polynomial_trendline lstsq X y weight_func degree =
  Ok (poly1d c,
      correlation_value X y (weights_of X y weight_func),
      determination_value (weights_of X y weight_func) (polyval c X) y).
Proof.
  intros HX E G Hc. unfold generate_polynomial_trendline.
  rewrite compute_weights_weights_of by assumption. cbn [bind].
  assert (P : polyfit lstsq X y degree
                (match weight_func with
                 | Some _ => Some (weights_of X y weight_func)
                 | None => None
                 end) = Ok c).
  { unfold polyfit. rewrite nonempty_length_eqb, E, Nat.eqb_refl by assumption.
    cbn [negb]. destruct weight_func as [wf|]; [|exact Hc].
    rewrite weights_of_length, E, Nat.eqb_refl by assumption. exact Hc. }
  rewrite P. cbn [bind].
  rewrite (trendline_metrics_eq X y (polyval c X)); auto.
  rewrite polyval_length. exact E.
Qed.

(** The curve fitter calls the optimizer with the weights as sigma, and
    absolute_sigma set exactly when there is a weight function; the
    trendline it returns is the model at the optimizer's parameters, and
    an exception of the model on X is raised. *)
Theorem generate_curve_fit_cases
        (X y popt : list T) f (weight_func : option (T -> T -> T)) :
  length X = length y ->
  curve_fit f X y
            (match weight_func with
             | Some _ => Some (weights_of X y weight_func)
             | None => None
             end)
            (match weight_func with Some _ => true | None => false end)
  = Ok popt ->
  average_guard (length X) (weights_of X y weight_func) = None ->
  (forall yhat, f X popt = Ok yhat -> length yhat = length y ->
     exists trendline,
       generate_curve_fit curve_fit X y f weight_func =
       Ok (trendline,
           correlation_value X y (weights_of X y weight_func),
           determination_value (weights_of X y weight_func) yhat y) /\
       forall x, trendline x = f x popt) /\
  (forall e, f X popt = Raise e ->
     generate_curve_fit curve_fit X y f weight_func = Raise e).
Proof.
  intros E Hfit G. unfold generate_curve_fit.
  rewrite compute_weights_weights_of by assumption. cbn [bind].
  rewrite Hfit. cbn [bind]. split.
  - intros yhat Hy Eh.
    rewrite (trendline_metrics_eq X y yhat); auto.
    cbn [bind fst snd]. eexists. split; [reflexivity|]. reflexivity.
  - intros e He. unfold _generate_trendline_metrics.
    rewrite compute_weights_weights_of by assumption. cbn [bind].
    assert (W : correlation_coefficient X y
                  (match weight_func with
                   | Some _ => Some (weights_of X y weight_func)
                   | None => None
                   end) =
                Ok (correlation_value X y (weights_of X y weight_func))).
    { transitivity
        (correlation_coefficient X y (Some (weights_of X y weight_func))).
      - destruct weight_func; reflexivity.
      - now rewrite correlation_coefficient_guard, G. }
    rewrite W. cbn [bind].
    unfold coefficient_of_determination.
    assert (Wt : match weight_func with
                 | Some _ =>
                     ow <- compute_weights X y weight_func ;;
                     match ow with
                     | Some ws => Ok ws
                     | None => Raise (TypeError "unsupported operand type(s) for *")
                     end
                 | None => Ok (ones (length X))
                 end = Ok (weights_of X y weight_func)).
    { destruct weight_func as [wf|]; [|reflexivity].
      now rewrite compute_weights_eq. }
    rewrite Wt. cbn [bind]. now rewrite He.
Qed.

(** What one pass of the loop body adds to the output. *)
Lemma column_body_events (X sorted_X : list T) column y out :
  exists new,
    fst (column_body lstsq curve_fit np_log X sorted_X column y out) = out ++ new /\
    Forall loop_event new /\
    (forall u, snd (column_body lstsq curve_fit np_log X sorted_X column y out)
               = Ok u ->
               column_events X sorted_X (column, y) new).
Proof.
  unfold column_body.
  destruct (generate_polynomial_trendline lstsq X y None 1)
    as [[[trendline p] r]|e1].
  2:{ exists [Scatter X y]. cbn [fst snd]. repeat split; auto.
      - repeat constructor.
      - discriminate. }
  destruct (trendline sorted_X) as [ys|e2].
  2:{ exists [Scatter X y]. cbn [fst snd]. repeat split; auto.
      - repeat constructor.
      - discriminate. }
  destruct (generate_curve_fit curve_fit X y (log_model np_log) None)
    as [[[log_trendline lp] lr]|e3].
  2:{ exists [Scatter X y; Plot sorted_X ys (column ++ " (linear)")].
      cbn [fst snd]. repeat split.
      - now rewrite <- app_assoc.
      - repeat constructor.
      - discriminate. }
  destruct (log_trendline sorted_X) as [lys|e4].
  2:{ exists [Scatter X y; Plot sorted_X ys (column ++ " (linear)")].
      cbn [fst snd]. repeat split.
      - now rewrite <- app_assoc.
      - repeat constructor.
      - discriminate. }
  eexists. cbn [fst snd]. repeat split.
  - rewrite <- !app_assoc. reflexivity.
  - repeat constructor.
  - intros u _. unfold column_events. cbn [fst snd].
    do 5 eexists. reflexivity.
Qed.

Lemma column_loop_events (X sorted_X : list T) Y out :
  exists new,
    fst (column_loop lstsq curve_fit np_log X sorted_X Y out) = out ++ new /\
    Forall loop_event new /\
    (forall u, snd (column_loop lstsq curve_fit np_log X sorted_X Y out) = Ok u ->
               exists groups,
                 new = concat groups /\
                 Forall2 (column_events X sorted_X) Y groups).
Proof.
  revert out. induction Y as [|[column y] Y IH]; intros out.
  - exists []. cbn [column_loop fst snd]. repeat split.
    + now rewrite app_nil_r.
    + constructor.
    + intros u _. exists []. split; [reflexivity | constructor].
  - cbn [column_loop].
    destruct (column_body_events X sorted_X column y out)
      as (new1 & Hf1 & Hl1 & Hok1).
    destruct (column_body lstsq curve_fit np_log X sorted_X column y out)
      as [out1 [u1|e1]]; cbn [fst snd] in *.
    + destruct (IH out1) as (new2 & Hf2 & Hl2 & Hok2).
      exists (new1 ++ new2). repeat split.
      * rewrite Hf2, Hf1. now rewrite app_assoc.
      * apply Forall_app. now split.
      * intros u Hu. destruct (Hok2 u Hu) as (groups & -> & HF).
        exists (new1 :: groups). split; [reflexivity|].
        constructor; [|exact HF]. now apply (Hok1 u1).
    + exists new1. repeat split; auto. discriminate.
Qed.

(** When the loop goes through, the output is six events for every
    column, in the order of the columns, followed by the legend and the
    show; when an exception ends it, neither the legend nor the show is
    part of the output: nothing is displayed. *)
Theorem plot_columns_output (X : list nat) (Y : list (string * list T)) :
  (forall out u,
      plot_columns lstsq curve_fit np_log X Y = (out, Ok u) ->
      exists groups,
        out = concat groups ++ [Legend; Show] /\
        Forall2 (column_events (map of_nat X) (map of_nat (sorted X))) Y groups /\
        length out = 6 * length Y + 2) /\
  (forall out e,
      plot_columns lstsq curve_fit np_log X Y = (out, Raise e) ->
      ~ In Legend out /\ ~ In Show out).
Proof.
  unfold plot_columns.
  destruct (column_loop_events (map of_nat X) (map of_nat (sorted X)) Y [])
    as (new & Hf & Hl & Hok).
  destruct (column_loop lstsq curve_fit np_log (map of_nat X)
                        (map of_nat (sorted X)) Y [])
    as [out0 [u0|e0]]; cbn [fst snd] in *; subst out0; cbn [app].
  - split; [|intros out e E; discriminate].
    intros out u E. inversion E; subst.
    destruct (Hok u0 eq_refl) as (groups & -> & HF).
    exists groups. repeat split; auto.
    rewrite length_app. cbn [length].
    assert (L : length (concat groups) = 6 * length Y).
    { clear - HF. induction HF as [|cy g Y groups Hg HF IH]; [reflexivity|].
      cbn [concat]. rewrite length_app, IH.
      destruct Hg as (? & ? & ? & ? & ? & ->). cbn [length]. lia. }
    lia.
  - split; [intros out u E; discriminate|].
    intros out e E. inversion E; subst.
    rewrite Forall_forall in Hl.
    split; intros Hin; apply (Hl _ Hin).
Qed.

End FitterFacts.

(** sorted(X) is X rearranged in ascending order. *)
Theorem sorted_ascending_permutation (X : list nat) :
  Sorted.Sorted le (sorted X) /\ Permutation.Permutation (sorted X) X.
Proof.
  assert (I : forall n l, Sorted.Sorted le l ->
                          Sorted.Sorted le (insert_sorted n l) /\
                          Permutation.Permutation (insert_sorted n l) (n :: l)).
  { intros n l. induction l as [|m l IH]; intros S.
    - split; [repeat constructor | reflexivity].
    - cbn [insert_sorted]. destruct (Nat.leb n m) eqn:L.
      + apply Nat.leb_le in L. split; [|reflexivity].
        constructor; [assumption | now constructor].
      + apply Nat.leb_gt in L.
        inversion S as [|? ? S' Hd]; subst.
        destruct (IH S') as [IS IP]. split.
        * constructor; [assumption|].
          destruct l as [|k l]; cbn [insert_sorted].
          -- constructor. lia.
          -- destruct (Nat.leb n k); constructor; [lia|].
             inversion Hd; subst. assumption.
        * exact (Permutation.perm_trans (Permutation.perm_skip m IP)
                                        (Permutation.perm_swap n m l)). }
  unfold sorted. induction X as [|x X [IS IP]]; cbn [fold_right].
  - split; constructor.
  - destruct (I x _ IS) as [S P]. split; [assumption|].
    exact (Permutation.perm_trans P (Permutation.perm_skip x IP)).
Qed.

(** ** More on the statistics in exact arithmetic *)

Section ExactFacts.
Open Scope R_scope.

Lemma Rsum_scaled_weights {A : Type} (c : R) (g : A -> R) (w : list R)
      (l : list A) :
  Rsum (map (fun p => fst p * g (snd p)) (combine (map (Rmult c) w) l)) =
  c * Rsum (map (fun p => fst p * g (snd p)) (combine w l)).
Proof.
  revert l; induction w as [|v w IH]; intros [|a l]; simpl; try lra.
  rewrite IH. lra.
Qed.

Lemma Rsum_map_scale (c : R) (w : list R) :
  Rsum (map (Rmult c) w) = c * Rsum w.
Proof.
  induction w as [|v w IH]; simpl; [lra|]. rewrite IH. lra.
Qed.

Lemma weighted_mean_scaled (c : R) (w a : list R) :
  c <> 0 -> Rsum w <> 0 ->
  weighted_mean (map (Rmult c) w) a = weighted_mean w a.
Proof.
  intros Hc Hw. unfold weighted_mean, weighted_sum.
  rewrite (Rsum_scaled_weights c (fun x => x)), Rsum_map_scale.
  field. split; assumption.
Qed.

Lemma weighted_covariance_scaled (c : R) (w X y : list R) :
  c <> 0 -> Rsum w <> 0 ->
  weighted_covariance (map (Rmult c) w) X y = weighted_covariance w X y.
Proof.
  intros Hc Hw. unfold weighted_covariance.
  rewrite !weighted_mean_scaled by assumption.
  rewrite (Rsum_scaled_weights c
             (fun q => (fst q - weighted_mean w X) * (snd q - weighted_mean w y))).
  rewrite Rsum_map_scale. field. split; assumption.
Qed.

(** Only the proportions of the weights matter: multiplying every weight
    by the same nonzero factor leaves the correlation coefficient as it
    is. *)
Theorem correlation_coefficient_weight_scale (c : R) (X y w : list R) :
  length X = length w -> length y = length w ->
  Rsum w <> 0 -> c <> 0 ->
  correlation_coefficient X y (Some (map (Rmult c) w)) =
  correlation_coefficient X y (Some w).
Proof.
  intros EX Ey Hw Hc.
  rewrite !correlation_coefficient_R; try assumption.
  - now rewrite !weighted_covariance_scaled.
  - now rewrite length_map.
  - now rewrite length_map.
  - rewrite Rsum_map_scale. apply Rmult_integral_contrapositive_currified; auto.
Qed.

Lemma RSS_constant (m : R) (w X y : list R) :
  length X = length y ->
  RSS w (map (fun _ => m) X) y =
  Rsum (map (fun p => fst p * (snd p - m) ^ 2) (combine w y)).
Proof.
  unfold RSS. revert X y.
  induction w as [|v w IH]; intros [|x X] [|b y] E; simpl in *;
    try discriminate; auto.
  rewrite IH by congruence. ring.
Qed.

(** The trendline that is constantly the weighted mean of y explains
    nothing: its coefficient of determination is 0. *)
Theorem coefficient_of_determination_mean_trendline
        (X y : list R) (weight_func : option (R -> R -> R)) :
  length X = length y ->
  Rsum (spec_weights X y weight_func) <> 0 ->
  TSS (spec_weights X y weight_func) y <> 0 ->
  coefficient_of_determination X y
    (fun x => Ok (map (fun _ => weighted_mean (spec_weights X y weight_func) y) x))
    weight_func = Ok 0.
Proof.
  intros E Hw Htss.
  rewrite (coefficient_of_determination_R X y
             (map (fun _ => weighted_mean (spec_weights X y weight_func) y) X));
    auto.
  - rewrite RSS_constant by assumption. fold (TSS (spec_weights X y weight_func) y).
    f_equal. field. exact Htss.
  - now rewrite length_map.
Qed.

(** The Cauchy-Schwarz inequality for weighted sums, through the
    discriminant of a quadratic that is never negative. *)
Lemma discriminant_nonpos (A B C : R) :
  0 <= A -> (forall t, 0 <= A * t ^ 2 + 2 * C * t + B) -> C ^ 2 <= A * B.
Proof.
  intros HA Hq.
  destruct (Req_dec_T A 0) as [HA0 | HA0].
  - subst A. destruct (Req_dec_T C 0) as [-> | HC]; [lra|].
    exfalso. specialize (Hq (- (B + 1) / (2 * C))).
    replace (0 * (- (B + 1) / (2 * C)) ^ 2 + 2 * C * (- (B + 1) / (2 * C)) + B)
      with (-1) in Hq by (field; assumption).
    lra.
  - assert (HAp : 0 < A) by lra.
    specialize (Hq (- C / A)).
    replace (A * (- C / A) ^ 2 + 2 * C * (- C / A) + B)
      with ((A * B - C ^ 2) / A) in Hq by (field; assumption).
    apply Rmult_le_compat_r with (r := A) in Hq; [|lra].
    replace ((A * B - C ^ 2) / A * A) with (A * B - C ^ 2) in Hq
      by (field; assumption).
    lra.
Qed.

Lemma weighted_cauchy_schwarz {A : Type} (f g : A -> R) (w : list R) (l : list A) :
  Forall (fun v => 0 <= v) w ->
  Rsum (map (fun p => fst p * (f (snd p) * g (snd p))) (combine w l)) ^ 2 <=
  Rsum (map (fun p => fst p * (f (snd p) * f (snd p))) (combine w l)) *
  Rsum (map (fun p => fst p * (g (snd p) * g (snd p))) (combine w l)).
Proof.
  intros Hw. apply discriminant_nonpos.
  - erewrite map_ext; [apply (weighted_squares_nonneg f w l Hw)|].
    intros; cbv beta; ring.
  - intros t.
    replace (Rsum (map (fun p => fst p * (f (snd p) * f (snd p))) (combine w l)) * t ^ 2 +
             2 * Rsum (map (fun p => fst p * (f (snd p) * g (snd p))) (combine w l)) * t +
             Rsum (map (fun p => fst p * (g (snd p) * g (snd p))) (combine w l)))
      with (Rsum (map (fun p => fst p * (f (snd p) * t + g (snd p)) ^ 2)
                      (combine w l))).
    + apply (weighted_squares_nonneg (fun a => f a * t + g a) w l Hw).
    + clear Hw. revert l; induction w as [|v w IH]; intros [|a l]; simpl;
        try ring.
      rewrite IH. ring.
Qed.

Lemma variance_terms_left (m : R) (w X y : list R) :
  length X = length y ->
  map (fun p => fst p * ((fst (snd p) - m) * (snd (snd p) - m)))
      (combine w (combine X X)) =
  map (fun p => fst p * ((fst (snd p) - m) * (fst (snd p) - m)))
      (combine w (combine X y)).
Proof.
  revert X y; induction w as [|v w IH]; intros [|x X] [|b y] E; simpl in *;
    try discriminate; auto.
  f_equal. apply IH. congruence.
Qed.

Lemma variance_terms_right (m : R) (w X y : list R) :
  length X = length y ->
  map (fun p => fst p * ((fst (snd p) - m) * (snd (snd p) - m)))
      (combine w (combine y y)) =
  map (fun p => fst p * ((snd (snd p) - m) * (snd (snd p) - m)))
      (combine w (combine X y)).
Proof.
  revert X y; induction w as [|v w IH]; intros [|x X] [|b y] E; simpl in *;
    try discriminate; auto.
  f_equal. apply IH. congruence.
Qed.

Lemma covariance_squared_le (w X y : list R) :
  length X = length y ->
  Forall (fun v => 0 <= v) w -> 0 < Rsum w ->
  weighted_covariance w X y ^ 2 <=
  weighted_covariance w X X * weighted_covariance w y y.
Proof.
  intros E Hw HW. unfold weighted_covariance.
  set (mx := weighted_mean w X). set (my := weighted_mean w y).
  pose proof (weighted_cauchy_schwarz
                (fun q : R * R => fst q - mx) (fun q => snd q - my)
                w (combine X y) Hw) as CS.
  cbv beta in CS.
  rewrite (variance_terms_left mx w X y E).
  rewrite (variance_terms_right my w X y E).
  set (C := Rsum (map (fun p => fst p * ((fst (snd p) - mx) * (snd (snd p) - my)))
                      (combine w (combine X y)))) in *.
  set (A := Rsum (map (fun p => fst p * ((fst (snd p) - mx) * (fst (snd p) - mx)))
                      (combine w (combine X y)))) in *.
  set (B := Rsum (map (fun p => fst p * ((snd (snd p) - my) * (snd (snd p) - my)))
                      (combine w (combine X y)))) in *.
  assert (Hi : 0 < / Rsum w) by now apply Rinv_0_lt_compat.
  replace ((C / Rsum w) ^ 2) with (C ^ 2 * (/ Rsum w * / Rsum w))
    by (unfold Rdiv; ring).
  replace (A / Rsum w * (B / Rsum w)) with (A * B * (/ Rsum w * / Rsum w))
    by (unfold Rdiv; ring).
  apply Rmult_le_compat_r; [nra | exact CS].
Qed.

Lemma variance_nonneg (w X : list R) :
  Forall (fun v => 0 <= v) w -> 0 < Rsum w ->
  0 <= weighted_covariance w X X.
Proof.
  intros Hw HW. unfold weighted_covariance.
  rewrite (variance_terms_left (weighted_mean w X) w X X eq_refl).
  apply Rmult_le_pos; [|apply Rlt_le; now apply Rinv_0_lt_compat].
  erewrite map_ext;
    [apply (weighted_squares_nonneg
              (fun q : R * R => fst q - weighted_mean w X) w (combine X X) Hw)|].
  intros; cbv beta; ring.
Qed.

(** With nonnegative weights of positive total and nonzero variances the
    correlation coefficient lies between -1 and 1. *)
Theorem correlation_coefficient_range (X y w : list R) :
  length X = length w -> length y = length w ->
  Forall (fun v => 0 <= v) w -> 0 < Rsum w ->
  weighted_covariance w X X <> 0 -> weighted_covariance w y y <> 0 ->
  exists r, correlation_coefficient X y (Some w) = Ok r /\ -1 <= r <= 1.
Proof.
  intros EX Ey Hw HW Hvx Hvy.
  eexists. split; [apply correlation_coefficient_R; auto; lra|].
  assert (E : length X = length y) by congruence.
  pose proof (covariance_squared_le w X y E Hw HW) as CS.
  pose proof (variance_nonneg w X Hw HW) as CX.
  pose proof (variance_nonneg w y Hw HW) as CY.
  set (cxy := weighted_covariance w X y) in *.
  set (cxx := weighted_covariance w X X) in *.
  set (cyy := weighted_covariance w y y) in *.
  assert (Hxx : 0 < cxx) by lra.
  assert (Hyy : 0 < cyy) by lra.
  assert (Hp : 0 < cxx * cyy) by nra.
  pose proof (sqrt_lt_R0 _ Hp) as Hs.
  pose proof (sqrt_sqrt (cxx * cyy) (Rlt_le _ _ Hp)) as Hss.
  set (s := sqrt (cxx * cyy)) in *.
  assert (Hb : - s <= cxy <= s) by nra.
  split.
  - apply Rmult_le_reg_r with (r := s); [assumption|].
    unfold Rdiv. rewrite Rmult_assoc, Rinv_l by lra. lra.
  - apply Rmult_le_reg_r with (r := s); [assumption|].
    unfold Rdiv. rewrite Rmult_assoc, Rinv_l by lra. lra.
Qed.

End ExactFacts.

(** ** More on the aggregation loop *)

Section AggregationMore.
Context {T : Type} `{Scalar T}.

Lemma nonempty_cells_positive (cells : list (list (@Point T))) :
  Forall (fun x => 1 <= x) (map (@length _) (nonempty_cells cells)).
Proof.
  unfold nonempty_cells. apply Forall_forall. intros x Hx.
  apply in_map_iff in Hx. destruct Hx as (cell & <- & Hc).
  apply filter_In in Hc. destruct Hc as [_ Hc].
  destruct cell; [discriminate | simpl; lia].
Qed.

Lemma nonempty_cells_points (cells : list (list (@Point T))) :
  list_sum (map (@length _) (nonempty_cells cells)) = length (concat cells).
Proof.
  induction cells as [|cell cells IH]; [reflexivity|].
  cbn [concat]. rewrite length_app, <- IH.
  destruct cell as [|p cell].
  - change (nonempty_cells ([] :: cells)) with (nonempty_cells cells).
    reflexivity.
  - change (nonempty_cells ((p :: cell) :: cells))
      with ((p :: cell) :: nonempty_cells cells).
    reflexivity.
Qed.

(** On a grid that has the cells the loops visit, with distinct requested
    labels that are columns of the table, the loop returns one sample for
    every non-empty cell, in the order i then j: X is the point count and
    Y[column] the total, over the points of the cell, of the values (NaN
    as 0) of the rows at the point's coordinates. *)
Theorem aggregate_samples (df : @DataFrame T) (y_columns : list string)
        (chunks : list (list (list (@Point T)))) (chunk_width chunk_height : nat) :
  chunk_width <= length chunks ->
  (forall i, i < chunk_width -> chunk_height <= length (nth i chunks [])) ->
  NoDup y_columns -> check_labels df y_columns = Ok tt ->
  aggregate df y_columns chunks chunk_width chunk_height =
  Ok (map (@length _)
          (nonempty_cells (cells_row_major chunks chunk_width chunk_height)),
      map (fun c => (c, map (point_total df c)
                            (nonempty_cells
                               (cells_row_major chunks chunk_width chunk_height))))
          y_columns).
Proof.
  intros Hw Hh ND L. now rewrite aggregate_eq.
Qed.

(** What the loop returns is well shaped: the keys of Y are the requested
    labels in their order, every Y[column] has the length of X, X holds no
    zero, and the entries of X add up to the number of points in the cells
    visited. *)
Theorem aggregate_shape (df : @DataFrame T) (y_columns : list string)
        (chunks : list (list (list (@Point T)))) (chunk_width chunk_height : nat) :
  chunk_width <= length chunks ->
  (forall i, i < chunk_width -> chunk_height <= length (nth i chunks [])) ->
  NoDup y_columns -> check_labels df y_columns = Ok tt ->
  exists X Y,
    aggregate df y_columns chunks chunk_width chunk_height = Ok (X, Y) /\
    map fst Y = y_columns /\
    Forall (fun cy => length (snd cy) = length X) Y /\
    Forall (fun x => 1 <= x) X /\
    list_sum X =
    length (concat (cells_row_major chunks chunk_width chunk_height)).
Proof.
  intros Hw Hh ND L. do 2 eexists. split; [now apply aggregate_eq|].
  cbv zeta. repeat split.
  - unfold keyed. rewrite map_map. cbn [fst]. apply map_id.
  - unfold keyed. apply Forall_forall. intros [c ys] Hin.
    apply in_map_iff in Hin. destruct Hin as (k & E & _).
    inversion E; subst. cbn [snd]. now rewrite !length_map.
  - apply nonempty_cells_positive.
  - apply nonempty_cells_points.
Qed.

(** When the grid is a partition of the points made from the rows of the
    table, the entries of X add up to the number of rows. *)
Theorem aggregate_counts_every_row (df : @DataFrame T) (y_columns : list string)
        (chunks : list (list (list (@Point T)))) (chunk_width chunk_height : nat) :
  chunk_width <= length chunks ->
  (forall i, i < chunk_width -> chunk_height <= length (nth i chunks [])) ->
  NoDup y_columns -> check_labels df y_columns = Ok tt ->
  Permutation.Permutation
    (concat (cells_row_major chunks chunk_width chunk_height))
    (map point_of_row (rows df)) ->
  exists X Y,
    aggregate df y_columns chunks chunk_width chunk_height = Ok (X, Y) /\
    list_sum X = length (rows df).
Proof.
  intros Hw Hh ND L P. do 2 eexists. split; [now apply aggregate_eq|].
  cbv zeta. rewrite nonempty_cells_points.
  rewrite (Permutation.Permutation_length P). apply length_map.
Qed.

Lemma foldM_raises {A S : Type} (f : S -> A -> result S) (l : list A) (a : A) :
  In a l -> (forall s, raises (f s a)) -> forall s, raises (foldM f l s).
Proof.
  intros Hin Hr. induction l as [|b l IH]; intros s; [contradiction|].
  cbn [foldM]. destruct Hin as [-> | Hin].
  - destruct (Hr s) as [e ->]. now exists e.
  - destruct (f s b) as [s'|e]; cbn [bind]; [now apply IH | now exists e].
Qed.

Lemma get_chunk_out_of_range (chunks : list (list (list (@Point T)))) (i j : nat) :
  length chunks <= i \/ length (nth i chunks []) <= j ->
  get_chunk chunks i j = Raise IndexError.
Proof.
  intros Hr. unfold get_chunk.
  destruct (nth_error chunks i) as [column|] eqn:Ei; [|reflexivity].
  destruct Hr as [Hr | Hr].
  - apply nth_error_None in Hr. congruence.
  - rewrite (nth_error_nth _ _ [] Ei) in Hr.
    apply nth_error_None in Hr. now rewrite Hr.
Qed.

(** A grid that lacks a cell the loops visit never yields samples: the
    loop raises (IndexError at the missing cell, unless a cell before it
    has raised). *)
Theorem aggregate_grid_too_small (df : @DataFrame T) (y_columns : list string)
        (chunks : list (list (list (@Point T)))) (chunk_width chunk_height : nat)
        (i j : nat) :
  i < chunk_width -> j < chunk_height ->
  length chunks <= i \/ length (nth i chunks []) <= j ->
  raises (aggregate df y_columns chunks chunk_width chunk_height).
Proof.
  intros Hi Hj Hr. unfold aggregate.
  apply (foldM_raises _ _ i).
  - apply in_seq. lia.
  - intros XY. apply (foldM_raises _ _ j).
    + apply in_seq. lia.
    + intros XY'. rewrite get_chunk_out_of_range by assumption.
      now exists IndexError.
Qed.

Lemma check_labels_missing (df : @DataFrame T) (y_columns : list string) (c : string) :
  In c y_columns -> existsb (String.eqb c) (labels df) = false ->
  exists c', check_labels df y_columns = Raise (KeyError c') /\
             In c' y_columns /\
             existsb (String.eqb c') (labels df) = false.
Proof.
  induction y_columns as [|k ks IH]; intros Hin Hc; [contradiction|].
  cbn [check_labels].
  destruct (existsb (String.eqb k) (labels df)) eqn:Ek.
  - destruct Hin as [-> | Hin]; [congruence|].
    destruct (IH Hin Hc) as (c' & E & Hin' & Hc').
    exists c'. repeat split; auto. now right.
  - exists k. repeat split; auto. now left.
Qed.

Lemma add_cells_missing_label (df : @DataFrame T) (y_columns : list string) e
      (cells : list (list (@Point T))) XY :
  check_labels df y_columns = Raise e ->
  foldM (add_cell df y_columns) cells XY =
  match nonempty_cells cells with
  | [] => Ok XY
  | _ :: _ => Raise e
  end.
Proof.
  intros L. induction cells as [|cell cells IH]; [reflexivity|].
  cbn [foldM nonempty_cells filter]. unfold add_cell at 1.
  destruct cell as [|p cell].
  - cbn [length Nat.eqb negb bind]. exact IH.
  - cbn [length Nat.eqb negb foldM]. unfold add_point at 1.
    rewrite L. reflexivity.
Qed.

(** A requested label that is not a column of the table is noticed only
    at the first non-empty cell: then the loop raises KeyError for a
    requested label that is missing; when every cell is empty it returns
    empty samples all the same. *)
Theorem aggregate_missing_label (df : @DataFrame T) (y_columns : list string)
        (chunks : list (list (list (@Point T)))) (chunk_width chunk_height : nat)
        (c : string) :
  chunk_width <= length chunks ->
  (forall i, i < chunk_width -> chunk_height <= length (nth i chunks [])) ->
  In c y_columns -> existsb (String.eqb c) (labels df) = false ->
  (nonempty_cells (cells_row_major chunks chunk_width chunk_height) <> [] ->
   exists c',
     aggregate df y_columns chunks chunk_width chunk_height = Raise (KeyError c') /\
     In c' y_columns /\ existsb (String.eqb c') (labels df) = false) /\
  (nonempty_cells (cells_row_major chunks chunk_width chunk_height) = [] ->
   aggregate df y_columns chunks chunk_width chunk_height =
   Ok ([], dict_fromkeys y_columns [])).
Proof.
  intros Hw Hh Hin Hc.
  destruct (check_labels_missing df y_columns c Hin Hc) as (c' & L & Hin' & Hc').
  assert (E : aggregate df y_columns chunks chunk_width chunk_height =
              match nonempty_cells
                      (cells_row_major chunks chunk_width chunk_height) with
              | [] => Ok ([], dict_fromkeys y_columns [])
              | _ :: _ => Raise (KeyError c')
              end).
  { unfold aggregate. rewrite grid_cells.
    - now apply add_cells_missing_label.
    - apply Forall_forall. intros i Hi. apply in_seq in Hi.
      split; [lia | apply Hh; lia]. }
  rewrite E. split.
  - intros Hne. exists c'.
    destruct (nonempty_cells (cells_row_major chunks chunk_width chunk_height));
      [congruence | auto].
  - intros ->. reflexivity.
Qed.

End AggregationMore.

(** In exact arithmetic, when no two points of a cell share their
    coordinates, Y[column] is, for every non-empty cell, the total of the
    column over the rows of the table that lie at a point of the cell,
    each row counted once. *)
Theorem aggregate_distinct_coordinates
        (df : @DataFrame R) (y_columns : list string)
        (chunks : list (list (list (@Point R)))) (chunk_width chunk_height : nat) :
  chunk_width <= length chunks ->
  (forall i, i < chunk_width -> chunk_height <= length (nth i chunks [])) ->
  NoDup y_columns -> check_labels df y_columns = Ok tt ->
  Forall (fun cell => NoDup (map (fun p => (px p, py p)) cell))
         (cells_row_major chunks chunk_width chunk_height) ->
  aggregate df y_columns chunks chunk_width chunk_height =
  Ok (map (@length _)
          (nonempty_cells (cells_row_major chunks chunk_width chunk_height)),
      map (fun c => (c, map (fun cell => column_total df cell c)
                            (nonempty_cells
                               (cells_row_major chunks chunk_width chunk_height))))
          y_columns).
Proof.
  intros Hw Hh ND L D. rewrite aggregate_eq by assumption. cbv zeta.
  unfold keyed. do 2 f_equal. apply map_ext. intros c. f_equal.
  apply map_ext_in. intros cell Hc.
  apply point_total_distinct.
  apply filter_In in Hc. destruct Hc as [Hc _].
  rewrite Forall_forall in D. now apply D.
Qed.

(** ** Empty samples *)

Section EmptySamples.
Context {T : Type} `{Scalar T}.

Lemma empty_samples_zero_total (trendline : list T -> result (list T))
      (yhat : list T) (weight_func : option (T -> T -> T)) :
  seqb (np_sum (@nil T)) zero = true ->
  trendline [] = Ok yhat ->
  covariance [] [] None =
  Raise (ZeroDivisionError "Weights sum to zero, can't be normalized") /\
  correlation_coefficient [] [] None =
  Raise (ZeroDivisionError "Weights sum to zero, can't be normalized") /\
  coefficient_of_determination [] [] trendline weight_func =
  Raise (ZeroDivisionError "Weights sum to zero, can't be normalized").
Proof.
  intros Z Ht.
  assert (A : np_average (@nil T) [] =
              Raise (ZeroDivisionError "Weights sum to zero, can't be normalized")).
  { unfold np_average. cbn [length Nat.eqb negb]. now rewrite Z. }
  repeat split.
  - unfold covariance, default_weights, ones. cbn [length repeat].
    now rewrite A.
  - unfold correlation_coefficient, covariance, default_weights, ones.
    cbn [length repeat]. now rewrite A.
  - unfold coefficient_of_determination.
    assert (W : match weight_func with
                | Some _ =>
                    ow <- compute_weights [] [] weight_func ;;
                    match ow with
                    | Some ws => Ok ws
                    | None => Raise (TypeError "unsupported operand type(s) for *")
                    end
                | None => Ok (ones (length (@nil T)))
                end = Ok []).
    { destruct weight_func; reflexivity. }
    rewrite W. cbn [bind]. rewrite Ht. cbn [bind]. now rewrite A.
Qed.

End EmptySamples.

(** On empty samples the three statistics raise ZeroDivisionError (the
    weights in use are empty, so their total is zero), in float64 and in
    exact arithmetic alike; none of them returns NaN. *)
Theorem empty_samples_raise :
  (forall (trendline : list float -> result (list float)) yhat weight_func,
      trendline [] = Ok yhat ->
      covariance (T:=float) [] [] None =
      Raise (ZeroDivisionError "Weights sum to zero, can't be normalized") /\
      correlation_coefficient (T:=float) [] [] None =
      Raise (ZeroDivisionError "Weights sum to zero, can't be normalized") /\
      coefficient_of_determination [] [] trendline weight_func =
      Raise (ZeroDivisionError "Weights sum to zero, can't be normalized")) /\
  (forall (trendline : list R -> result (list R)) yhat weight_func,
      trendline [] = Ok yhat ->
      covariance (T:=R) [] [] None =
      Raise (ZeroDivisionError "Weights sum to zero, can't be normalized") /\
      correlation_coefficient (T:=R) [] [] None =
      Raise (ZeroDivisionError "Weights sum to zero, can't be normalized") /\
      coefficient_of_determination [] [] trendline weight_func =
      Raise (ZeroDivisionError "Weights sum to zero, can't be normalized")).
Proof.
  split; intros trendline yhat weight_func Ht.
  - apply (empty_samples_zero_total trendline yhat weight_func);
      [reflexivity | exact Ht].
  - apply (empty_samples_zero_total trendline yhat weight_func);
      [|exact Ht].
    change (R_eqb (INR 0) (INR 0) = true). now apply R_eqb_true.
Qed.

(** ** Instances of the further properties *)

Lemma empty_samples_raise_witness :
  coefficient_of_determination (T:=float) [] [] (fun x => Ok x) None =
  Raise (ZeroDivisionError "Weights sum to zero, can't be normalized").
Proof.
  apply (proj1 empty_samples_raise (fun x => Ok x) [] None eq_refl).
Defined.

Lemma compute_weights_cases_witness :
  compute_weights (floats [1; 2]) (floats [3; 4; 5]) (Some PrimFloat.mul) =
  Ok (Some (floats [3; 8])) /\
  compute_weights (floats [1; 2; 3]) (floats [3; 4]) (Some PrimFloat.mul) =
  Raise IndexError.
Proof.
  split.
  - assert (L : length (floats [1; 2]) <= length (floats [3; 4; 5]))
      by (simpl; lia).
    exact (proj1 (proj1 (proj2 (compute_weights_cases
                                  (floats [1; 2]) (floats [3; 4; 5]) PrimFloat.mul))
                        L)).
  - assert (L : length (floats [3; 4]) < length (floats [1; 2; 3]))
      by (simpl; lia).
    exact (proj2 (proj2 (compute_weights_cases
                           (floats [1; 2; 3]) (floats [3; 4]) PrimFloat.mul))
                 L).
Defined.

Lemma correlation_coefficient_outcomes_witness :
  correlation_coefficient (floats [1; 2]) (floats [3; 5]) (Some (floats [1])) =
  Raise (TypeError "Axis must be specified when shapes of a and weights differ.").
Proof.
  assert (L : length (floats [1]) <> length (floats [1; 2])) by (simpl; lia).
  exact (proj1 (correlation_coefficient_outcomes
                  (floats [1; 2]) (floats [3; 5]) (floats [1]) eq_refl) L).
Defined.

Lemma coefficient_of_determination_length_mismatch_witness :
  coefficient_of_determination (floats [1; 2; 3]) (floats [3; 5])
    (fun x => Ok x) (Some PrimFloat.mul) = Raise IndexError.
Proof.
  assert (L : length (floats [1; 2; 3]) <> length (floats [3; 5]))
    by (simpl; lia).
  exact (coefficient_of_determination_length_mismatch
           (floats [1; 2; 3]) (floats [3; 5]) (floats [1; 2; 3])
           (fun x => Ok x) (Some PrimFloat.mul) L eq_refl).
Defined.

Lemma generate_polynomial_trendline_weighted_witness :
  exists p r,
    generate_polynomial_trendline lstsq_line (floats [1; 2; 3]) (floats [2; 4; 6])
      (Some (fun _ _ => 1%float)) 1 =
    Ok (poly1d (floats [2; 0]), p, r).
Proof.
  do 2 eexists.
  assert (HX : floats [1; 2; 3] <> []) by discriminate.
  exact (generate_polynomial_trendline_weighted lstsq_line
           (floats [1; 2; 3]) (floats [2; 4; 6]) (floats [2; 0])
           (Some (fun _ _ => 1%float)) 1 HX eq_refl eq_refl eq_refl).
Defined.

Lemma generate_curve_fit_cases_witness :
  exists trendline,
    generate_curve_fit (curve_fit_returning [1; 1; 0]%R) [1; 2]%R [3; 5]%R
      (log_model ln) None =
    Ok (trendline,
        correlation_value [1; 2]%R [3; 5]%R (weights_of [1; 2]%R [3; 5]%R None),
        determination_value (weights_of [1; 2]%R [3; 5]%R None)
          [(1 * ln (1 * 1) + 0)%R; (1 * ln (1 * 2) + 0)%R] [3; 5]%R) /\
    forall x, trendline x = log_model ln x [1; 1; 0]%R.
Proof.
  assert (G : average_guard (length [1; 2]%R) (weights_of [1; 2]%R [3; 5]%R None)
              = None).
  { apply average_guard_R; [reflexivity|]. simpl. lra. }
  exact (proj1 (generate_curve_fit_cases (curve_fit_returning [1; 1; 0]%R)
                  [1; 2]%R [3; 5]%R [1; 1; 0]%R (log_model ln) None
                  eq_refl eq_refl G)
               _ eq_refl eq_refl).
Defined.

Lemma plot_columns_output_witness :
  match plot_columns lstsq_line curve_fit_no_convergence ln [1; 2]
                     [("a"%string, [3; 5]%R); ("b"%string, [4; 4]%R)]
  with
  | (out, Raise _) => ~ In Legend out /\ ~ In Show out
  | (out, Ok _) => length out = 6 * 2 + 2
  end.
Proof.
  destruct (plot_columns lstsq_line curve_fit_no_convergence ln [1; 2]
                         [("a"%string, [3; 5]%R); ("b"%string, [4; 4]%R)])
    as [out [u|e]] eqn:E.
  - destruct (proj1 (plot_columns_output lstsq_line curve_fit_no_convergence ln
                       [1; 2] [("a"%string, [3; 5]%R); ("b"%string, [4; 4]%R)])
                    out u E) as (groups & _ & _ & L).
    exact L.
  - exact (proj2 (plot_columns_output lstsq_line curve_fit_no_convergence ln
                    [1; 2] [("a"%string, [3; 5]%R); ("b"%string, [4; 4]%R)])
                 out e E).
Defined.

Lemma correlation_coefficient_weight_scale_witness :
  correlation_coefficient [1; 2; 4]%R [3; 1; 2]%R
    (Some (map (Rmult 5) [1; 2; 1]%R)) =
  correlation_coefficient [1; 2; 4]%R [3; 1; 2]%R (Some [1; 2; 1]%R).
Proof.
  apply (correlation_coefficient_weight_scale 5 [1; 2; 4]%R [3; 1; 2]%R
           [1; 2; 1]%R eq_refl eq_refl).
  - simpl. lra.
  - lra.
Defined.

Lemma coefficient_of_determination_mean_trendline_witness :
  coefficient_of_determination [1; 2; 4]%R [3; 1; 2]%R
    (fun x => Ok (map (fun _ =>
                         weighted_mean (spec_weights [1; 2; 4]%R [3; 1; 2]%R None)
                                       [3; 1; 2]%R) x))
    None = Ok 0%R.
Proof.
  apply (coefficient_of_determination_mean_trendline
           [1; 2; 4]%R [3; 1; 2]%R None eq_refl).
  - simpl. lra.
  - unfold TSS, weighted_mean, weighted_sum. simpl. lra.
Defined.

Lemma correlation_coefficient_range_witness :
  exists r,
    correlation_coefficient [1; 2; 4]%R [3; 1; 2]%R (Some [1; 2; 1]%R) = Ok r /\
    (-1 <= r <= 1)%R.
Proof.
  apply (correlation_coefficient_range [1; 2; 4]%R [3; 1; 2]%R [1; 2; 1]%R
           eq_refl eq_refl).
  - repeat constructor; lra.
  - simpl. lra.
  - unfold weighted_covariance, weighted_mean, weighted_sum. simpl. lra.
  - unfold weighted_covariance, weighted_mean, weighted_sum. simpl. lra.
Defined.

Lemma two_by_two_shape :
  2 <= length two_by_two /\
  forall i, i < 2 -> 2 <= length (nth i two_by_two []).
Proof.
  split; [simpl; lia|].
  intros [|[|i]] Hi; simpl; lia.
Qed.

Lemma aggregate_samples_witness :
  aggregate four_rows ["m"%string] two_by_two 2 2 =
  Ok (map (@length _) (nonempty_cells (cells_row_major two_by_two 2 2)),
      map (fun c => (c, map (point_total four_rows c)
                            (nonempty_cells (cells_row_major two_by_two 2 2))))
          ["m"%string]).
Proof.
  apply (aggregate_samples four_rows ["m"%string] two_by_two 2 2
           (proj1 two_by_two_shape) (proj2 two_by_two_shape)).
  - repeat constructor. simpl. tauto.
  - reflexivity.
Defined.

Lemma aggregate_shape_witness :
  exists X Y,
    aggregate four_rows ["m"%string] two_by_two 2 2 = Ok (X, Y) /\
    map fst Y = ["m"%string] /\
    Forall (fun cy => length (snd cy) = length X) Y /\
    Forall (fun x => 1 <= x) X /\
    list_sum X = length (concat (cells_row_major two_by_two 2 2)).
Proof.
  apply (aggregate_shape four_rows ["m"%string] two_by_two 2 2
           (proj1 two_by_two_shape) (proj2 two_by_two_shape)).
  - repeat constructor. simpl. tauto.
  - reflexivity.
Defined.

Lemma aggregate_counts_every_row_witness :
  exists X Y,
    aggregate four_rows ["m"%string] two_by_two 2 2 = Ok (X, Y) /\
    list_sum X = length (rows four_rows).
Proof.
  apply (aggregate_counts_every_row four_rows ["m"%string] two_by_two 2 2
           (proj1 two_by_two_shape) (proj2 two_by_two_shape)).
  - repeat constructor. simpl. tauto.
  - reflexivity.
  - exact (Permutation.Permutation_refl _).
Defined.

Lemma aggregate_grid_too_small_witness :
  raises (aggregate twin_rows ["v"%string] [[twin_cell]] 2 1).
Proof.
  apply (aggregate_grid_too_small twin_rows ["v"%string] [[twin_cell]] 2 1 1 0).
  - lia.
  - lia.
  - left. simpl. lia.
Defined.

Lemma aggregate_missing_label_witness :
  exists c',
    aggregate four_rows ["m"%string; "zz"%string] two_by_two 2 2 =
    Raise (KeyError c') /\
    In c' ["m"%string; "zz"%string] /\
    existsb (String.eqb c') (labels four_rows) = false.
Proof.
  apply (proj1 (aggregate_missing_label four_rows ["m"%string; "zz"%string]
                  two_by_two 2 2 "zz"%string
                  (proj1 two_by_two_shape) (proj2 two_by_two_shape)
                  (or_intror (or_introl eq_refl)) eq_refl)).
  discriminate.
Defined.

Lemma aggregate_distinct_coordinates_witness :
  aggregate apart_rows ["v"%string] [[apart_cell]] 1 1 =
  Ok (map (@length _) (nonempty_cells (cells_row_major [[apart_cell]] 1 1)),
      map (fun c => (c, map (fun cell => column_total apart_rows cell c)
                            (nonempty_cells (cells_row_major [[apart_cell]] 1 1))))
          ["v"%string]).
Proof.
  apply (aggregate_distinct_coordinates apart_rows ["v"%string] [[apart_cell]] 1 1).
  - simpl. lia.
  - intros [|i] Hi; simpl; lia.
  - repeat constructor. simpl. tauto.
  - reflexivity.
  - repeat constructor; simpl.
    + intros [E | []]. inversion E. lra.
    + tauto.
Defined.

(** * Float64 arithmetic of the coefficient of determination *)

Section Float64Arithmetic.
Local Open Scope Z_scope.

(** ** Rounding: one minus a value that is not negative *)

Lemma fexp64 (x : Z) : fexp prec emax x = Z.max (x - 53) (-1074).
Proof. reflexivity. Qed.

Lemma digits2_pos_size (p : positive) : digits2_pos p = Pos.size p.
Proof. induction p; simpl; congruence. Qed.

Lemma digits_upper (m : positive) (k : Z) :
  0 <= k -> Zpos m < 2 ^ k -> Zpos (digits2_pos m) <= k.
Proof.
  intros Hk Hm. rewrite digits2_pos_size.
  destruct (Z_le_gt_dec (Zpos (Pos.size m)) k) as [L | G]; [exact L|].
  exfalso.
  pose proof (Pos.size_le m) as S.
  assert (S' : 2 ^ Zpos (Pos.size m) <= 2 * Zpos m).
  { change (2 * Zpos m) with (Zpos (m~0)).
    rewrite <- (Pos2Z.inj_pow 2 (Pos.size m)). exact S. }
  assert (P : 2 ^ (k + 1) <= 2 ^ Zpos (Pos.size m))
    by (apply Z.pow_le_mono_r; lia).
  rewrite Z.pow_add_r in P by lia. lia.
Qed.

Lemma digits_lower (m : positive) :
  2 ^ (Zpos (digits2_pos m) - 1) <= Zpos m.
Proof.
  rewrite digits2_pos_size.
  pose proof (Pos.size_le m) as S.
  assert (S' : 2 ^ Zpos (Pos.size m) <= 2 * Zpos m).
  { change (2 * Zpos m) with (Zpos (m~0)).
    rewrite <- (Pos2Z.inj_pow 2 (Pos.size m)). exact S. }
  replace (Zpos (Pos.size m)) with (Zpos (Pos.size m) - 1 + 1) in S' by lia.
  rewrite Z.pow_add_r in S' by lia. lia.
Qed.

Lemma Zdigits2_upper (m k : Z) :
  0 <= m -> 0 <= k -> m < 2 ^ k -> Zdigits2 m <= k.
Proof.
  intros Hm Hk Hlt. destruct m as [|p|p]; simpl; try lia.
  now apply digits_upper.
Qed.

Lemma shr_1_m (mrs : shr_record) :
  0 <= shr_m mrs -> shr_m (shr_1 mrs) = shr_m mrs / 2.
Proof.
  destruct mrs as [m r s]. simpl. intros Hm.
  rewrite <- Z.div2_div.
  destruct m as [|[p|p|]|p]; simpl; try reflexivity; lia.
Qed.

Lemma iter_shr_m (p : positive) (mrs : shr_record) :
  0 <= shr_m mrs ->
  shr_m (SpecFloat.iter_pos shr_1 p mrs) = shr_m mrs / 2 ^ Zpos p.
Proof.
  revert mrs. induction p as [p IH | p IH |]; intros mrs Hm; simpl SpecFloat.iter_pos.
  - assert (E : 2 ^ Zpos p~1 = 2 * (2 ^ Zpos p * 2 ^ Zpos p)).
    { rewrite (Pos2Z.inj_xI p).
      rewrite Z.pow_add_r, Z.pow_twice_r by lia. change (2 ^ 1) with 2. ring. }
    assert (P : 0 < 2 ^ Zpos p) by (apply Z.pow_pos_nonneg; lia).
    assert (H1 : 0 <= shr_m (shr_1 mrs))
      by (rewrite shr_1_m by assumption; apply Z.div_pos; lia).
    assert (H2 : 0 <= shr_m (SpecFloat.iter_pos shr_1 p (shr_1 mrs)))
      by (rewrite IH by assumption; apply Z.div_pos; lia).
    rewrite IH, IH, shr_1_m by assumption.
    rewrite !Z.div_div by lia. rewrite E. f_equal; ring.
  - assert (E : 2 ^ Zpos p~0 = 2 ^ Zpos p * 2 ^ Zpos p).
    { rewrite (Pos2Z.inj_xO p). apply Z.pow_twice_r. }
    assert (P : 0 < 2 ^ Zpos p) by (apply Z.pow_pos_nonneg; lia).
    assert (H2 : 0 <= shr_m (SpecFloat.iter_pos shr_1 p mrs))
      by (rewrite IH by assumption; apply Z.div_pos; lia).
    rewrite IH, IH by assumption.
    rewrite !Z.div_div by lia. now rewrite E.
  - rewrite shr_1_m by assumption. reflexivity.
Qed.

Lemma shr_record_of_loc_m (m : Z) (l : location) :
  shr_m (shr_record_of_loc m l) = m.
Proof. destruct l as [|[| |]]; reflexivity. Qed.

Lemma shr_fexp_spec (m e : Z) (l : location) :
  0 <= m ->
  let n := Z.max 0 (fexp prec emax (Zdigits2 m + e) - e) in
  shr_m (fst (shr_fexp prec emax m e l)) = m / 2 ^ n /\
  snd (shr_fexp prec emax m e l) = e + n.
Proof.
  intros Hm n. unfold shr_fexp, shr. subst n.
  destruct (fexp prec emax (Zdigits2 m + e) - e) as [|p|p] eqn:E.
  - cbn [fst snd]. rewrite shr_record_of_loc_m.
    change (Z.max 0 0) with 0. rewrite Z.div_1_r. split; lia.
  - cbn [fst snd]. rewrite iter_shr_m by (rewrite shr_record_of_loc_m; exact Hm).
    rewrite shr_record_of_loc_m.
    replace (Z.max 0 (Zpos p)) with (Zpos p) by lia. split; reflexivity.
  - cbn [fst snd]. rewrite shr_record_of_loc_m.
    replace (Z.max 0 (Zneg p)) with 0 by lia. rewrite Z.div_1_r. split; lia.
Qed.

Lemma round_nearest_even_bounds (m : Z) (l : location) :
  m <= round_nearest_even m l <= m + 1.
Proof.
  destruct l as [|[| |]]; simpl; try lia.
  destruct (Z.even m); lia.
Qed.

Lemma round_stage_two (sx : bool) (m e : Z) :
  0 <= m -> e <= 0 -> m <= 2 ^ (- e) ->
  not_above_one
    (let '(mrs, e2) := shr_fexp prec emax m e loc_Exact in
     match shr_m mrs with
     | Z0 => S754_zero sx
     | Zpos p => if Z.leb e2 (emax - prec) then S754_finite sx p e2
                 else S754_infinity sx
     | Zneg _ => S754_nan
     end).
Proof.
  intros Hm He Hb.
  destruct (shr_fexp_spec m e loc_Exact Hm) as [Hm2 He2].
  destruct (shr_fexp prec emax m e loc_Exact) as [mrs e2].
  cbn [fst snd] in Hm2, He2.
  set (n := Z.max 0 (fexp prec emax (Zdigits2 m + e) - e)) in *.
  assert (P : 0 < 2 ^ (- e)) by (apply Z.pow_pos_nonneg; lia).
  assert (D : Zdigits2 m <= - e + 1).
  { apply Zdigits2_upper; try lia.
    rewrite Z.pow_add_r by lia. change (2 ^ 1) with 2. lia. }
  assert (F : fexp prec emax (Zdigits2 m + e) <= 0) by (rewrite fexp64; lia).
  assert (N : 0 <= n <= - e) by (subst n; lia).
  assert (E2 : e2 <= 0) by lia.
  assert (B : shr_m mrs <= 2 ^ (- e2)).
  { rewrite Hm2, He2.
    replace (- (e + n)) with (- e - n) by lia.
    rewrite Z.pow_sub_r by lia.
    apply Z.div_le_mono; [apply Z.pow_pos_nonneg; lia | exact Hb]. }
  destruct (shr_m mrs) as [|p|p].
  - destruct sx; exact I.
  - assert (L : Z.leb e2 (emax - prec) = true)
      by (apply Z.leb_le; change (emax - prec) with 971; lia).
    rewrite L. destruct sx; [exact I | split; assumption].
  - exact I.
Qed.

Lemma binary_round_aux_not_above_one (sx : bool) (m e : Z) :
  0 < m -> e <= 0 -> m < 2 ^ (- e) ->
  not_above_one (binary_round_aux prec emax sx m e loc_Exact).
Proof.
  intros Hm He Hb. unfold binary_round_aux.
  assert (Hm0 : 0 <= m) by lia.
  destruct (shr_fexp_spec m e loc_Exact Hm0) as [Hm1 He1].
  destruct (shr_fexp prec emax m e loc_Exact) as [mrs1 e1].
  cbn [fst snd] in Hm1, He1.
  set (n := Z.max 0 (fexp prec emax (Zdigits2 m + e) - e)) in *.
  assert (D : Zdigits2 m <= - e) by (apply Zdigits2_upper; lia).
  assert (F : fexp prec emax (Zdigits2 m + e) <= 0) by (rewrite fexp64; lia).
  assert (N : 0 <= n <= - e) by (subst n; lia).
  assert (P : 0 < 2 ^ n) by (apply Z.pow_pos_nonneg; lia).
  assert (B1 : shr_m mrs1 < 2 ^ (- e1)).
  { rewrite Hm1, He1. apply Z.div_lt_upper_bound; [exact P|].
    rewrite <- Z.pow_add_r by lia.
    replace (n + - (e + n)) with (- e) by lia. exact Hb. }
  assert (Z1 : 0 <= shr_m mrs1) by (rewrite Hm1; apply Z.div_pos; lia).
  pose proof (round_nearest_even_bounds (shr_m mrs1) (loc_of_shr_record mrs1))
    as R.
  apply round_stage_two; lia.
Qed.

Lemma iter_xO_pow (d k : positive) :
  Zpos (Pos.iter xO d k) = Zpos d * 2 ^ Zpos k.
Proof.
  induction k as [|k IH] using Pos.peano_ind.
  - simpl. lia.
  - rewrite Pos.iter_succ, Pos2Z.inj_xO, IH, Pos2Z.inj_succ.
    rewrite Z.pow_succ_r by lia. ring.
Qed.

Lemma binary_round_not_above_one (sx : bool) (d : positive) (e : Z) :
  e <= 0 -> Zpos d < 2 ^ (- e) ->
  not_above_one (binary_round prec emax sx d e).
Proof.
  intros He Hb. unfold binary_round, shl_align.
  destruct (fexp prec emax (Zpos (digits2_pos d) + e) - e) as [|k|k] eqn:E.
  - apply binary_round_aux_not_above_one; lia.
  - apply binary_round_aux_not_above_one; lia.
  - assert (F : fexp prec emax (Zpos (digits2_pos d) + e) = e - Zpos k) by lia.
    rewrite F. apply binary_round_aux_not_above_one; try lia.
    rewrite iter_xO_pow.
    replace (- (e - Zpos k)) with (- e + Zpos k) by lia.
    rewrite Z.pow_add_r by lia.
    apply Z.mul_lt_mono_pos_r; [apply Z.pow_pos_nonneg; lia | exact Hb].
Qed.

Lemma binary_round_aux_sign (sx : bool) (m e : Z) (l : location) :
  match binary_round_aux prec emax sx m e l with
  | S754_finite s _ _ | S754_infinity s | S754_zero s => s = sx
  | S754_nan => True
  end.
Proof.
  unfold binary_round_aux.
  destruct (shr_fexp prec emax m e l) as [mrs1 e1].
  destruct (shr_fexp prec emax _ e1 loc_Exact) as [mrs2 e2].
  destruct (shr_m mrs2); auto.
  destruct (Z.leb e2 (emax - prec)); reflexivity.
Qed.

Lemma binary_round_sign (sx : bool) (d : positive) (e : Z) :
  match binary_round prec emax sx d e with
  | S754_finite s _ _ | S754_infinity s | S754_zero s => s = sx
  | S754_nan => True
  end.
Proof.
  unfold binary_round.
  destruct (shl_align d e _) as [mz ez]. apply binary_round_aux_sign.
Qed.

Lemma shl_align_one (ez : Z) :
  ez <= -52 ->
  Zpos (fst (shl_align 4503599627370496 (-52) ez)) = 2 ^ (- ez).
Proof.
  intros He. unfold shl_align.
  destruct (ez - -52) as [|k|k] eqn:E; cbn [fst].
  - replace ez with (-52) by lia. reflexivity.
  - lia.
  - rewrite iter_xO_pow. replace (- ez) with (52 + Zpos k) by lia.
    rewrite Z.pow_add_r by lia. reflexivity.
Qed.

Lemma SFsub_one_not_above_one (mq : positive) (eq : Z) :
  not_above_one (SFsub prec emax SF1 (S754_finite false mq eq)).
Proof.
  unfold SFsub, SF1. cbv zeta.
  set (ez := Z.min (-52) eq).
  assert (He : ez <= -52) by (subst ez; lia).
  cbn [cond_Zopp]. rewrite (shl_align_one ez He).
  assert (P : 0 < 2 ^ (- ez)) by (apply Z.pow_pos_nonneg; lia).
  pose proof (Pos2Z.is_pos (fst (shl_align mq eq ez))) as Q.
  unfold binary_normalize.
  destruct (2 ^ (- ez) - Zpos (fst (shl_align mq eq ez))) as [|d|d] eqn:E.
  - exact I.
  - apply binary_round_not_above_one; lia.
  - pose proof (binary_round_sign true d ez) as S.
    destruct (binary_round prec emax true d ez) as [s|s| |s m e];
      try exact I; subst s; exact I.
Qed.

Lemma compare_one_valid (r : spec_float) :
  valid_binary r = true -> not_above_one r -> SFltb SF1 r = false.
Proof.
  intros V B. destruct r as [s|[|]| |[|] m e]; try reflexivity.
  - destruct B.
  - destruct B as [He Hm].
    unfold valid_binary, bounded, canonical_mantissa in V.
    apply andb_prop in V. destruct V as [C _].
    apply Z.eqb_eq in C. rewrite fexp64 in C.
    unfold SFltb, SFcompare, SF1.
    destruct (Z.compare (-52) e) eqn:Ce; try reflexivity.
    + apply Z.compare_eq in Ce. subst e.
      change (2 ^ (- -52)) with 4503599627370496 in Hm.
      destruct (Pos.compare_cont Eq 4503599627370496 m) eqn:Cm; try reflexivity.
      change (Pos.compare_cont Eq 4503599627370496 m)
        with (Pos.compare 4503599627370496 m) in Cm.
      change (4503599627370496 < m)%positive in Cm. lia.
    + exfalso. change (-52 < e) in Ce.
      pose proof (digits_lower m) as L.
      assert (Dm : Zpos (digits2_pos m) = 53) by lia.
      rewrite Dm in L. change (2 ^ (53 - 1)) with 4503599627370496 in L.
      assert (U : 2 ^ (- e) <= 2 ^ 51) by (apply Z.pow_le_mono_r; lia).
      change (2 ^ 51) with 2251799813685248 in U. lia.
Qed.

(** ** Signs of float64 values *)

Lemma leb_zero_nonneg (w : float) :
  PrimFloat.leb 0 w = true -> sf_nonneg (Prim2SF w).
Proof.
  rewrite leb_spec. change (Prim2SF 0) with (S754_zero false).
  destruct (Prim2SF w) as [s|[|]| |[|] m e]; unfold SFleb, SFcompare; simpl;
    intros L; auto; discriminate.
Qed.

Lemma is_finite_inv (v : float) :
  PrimFloat.is_finite v = true -> sf_finite (Prim2SF v).
Proof.
  unfold PrimFloat.is_finite, PrimFloat.is_nan, PrimFloat.is_infinity.
  rewrite !eqb_spec, abs_spec.
  change (Prim2SF infinity) with (S754_infinity false).
  destruct (Prim2SF v) as [s|s| |s m e]; unfold SFeqb, SFcompare; simpl;
    intros L; auto; try discriminate.
  destruct s; simpl in L; discriminate.
Qed.

Lemma mul_square_sign (x : float) : sf_positive_sign (Prim2SF (x * x)).
Proof.
  rewrite mul_spec. unfold SF64mul, SFmul.
  destruct (Prim2SF x) as [s|s| |s m e]; simpl; auto using xorb_nilpotent.
  rewrite xorb_nilpotent.
  pose proof (binary_round_aux_sign false (Zpos (m * m)) (e + e) loc_Exact) as S.
  destruct (binary_round_aux prec emax _ _ _ _); auto.
Qed.

Lemma mul_nonneg_sign (w q : float) :
  sf_nonneg (Prim2SF w) -> sf_positive_sign (Prim2SF q) ->
  sf_nonneg (Prim2SF (w * q)).
Proof.
  rewrite mul_spec. unfold SF64mul, SFmul.
  destruct (Prim2SF w) as [sw|sw| |sw mw ew], (Prim2SF q) as [sq|sq| |sq mq eq];
    simpl; intros Hw Hq; subst; auto.
  pose proof (binary_round_aux_sign (xorb false false) (Zpos (mw * mq)) (ew + eq)
                                    loc_Exact) as S.
  destruct (binary_round_aux prec emax _ _ _ _); simpl; auto.
Qed.

Lemma binary_normalize_sum_sign (a b : positive) (e : Z) :
  sf_positive_sign (binary_normalize prec emax (Zpos a + Zpos b) e false).
Proof.
  change (Zpos a + Zpos b) with (Zpos (a + b)). unfold binary_normalize.
  pose proof (binary_round_sign false (a + b) e) as S.
  destruct (binary_round prec emax false (a + b) e); auto.
Qed.

Lemma add_sign (acc t : float) :
  sf_positive_sign (Prim2SF acc) -> sf_nonneg (Prim2SF t) ->
  sf_positive_sign (Prim2SF (acc + t)).
Proof.
  rewrite add_spec. unfold SF64add, SFadd.
  destruct (Prim2SF acc) as [sa|sa| |sa ma ea], (Prim2SF t) as [st|st| |st mt et];
    cbn [sf_positive_sign sf_nonneg]; intros Ha Ht; subst;
    try (cbv zeta; cbn [cond_Zopp]; apply binary_normalize_sum_sign);
    try destruct st; simpl; auto.
Qed.

Lemma fold_add_sign (terms : list float) (acc : float) :
  sf_positive_sign (Prim2SF acc) ->
  Forall (fun t => sf_nonneg (Prim2SF t)) terms ->
  sf_positive_sign (Prim2SF (fold_left PrimFloat.add terms acc)).
Proof.
  intros Ha Ht. revert acc Ha.
  induction Ht as [|t terms Hn Ht IH]; intros acc Ha; simpl; auto.
  apply IH. now apply add_sign.
Qed.

Lemma div_sign (a b : float) :
  sf_positive_sign (Prim2SF a) -> sf_positive_sign (Prim2SF b) ->
  sf_positive_sign (Prim2SF (a / b)).
Proof.
  rewrite div_spec. unfold SF64div, SFdiv.
  destruct (Prim2SF a) as [sa|sa| |sa ma ea], (Prim2SF b) as [sb|sb| |sb mb eb];
    simpl; intros Ha Hb; subst; auto.
  destruct (SFdiv_core_binary prec emax (Zpos ma) ea (Zpos mb) eb) as [[mz ez] lz].
  pose proof (binary_round_aux_sign (xorb false false) mz ez lz) as S.
  destruct (binary_round_aux prec emax _ _ _ _); auto.
Qed.

(** One minus a value that is not negative is not above one. *)
Lemma one_minus_not_above_one (q : float) :
  sf_positive_sign (Prim2SF q) -> PrimFloat.ltb 1 (1 - q) = false.
Proof.
  intros Hq. rewrite ltb_spec.
  pose proof (Prim2SF_valid (1 - q)) as V.
  rewrite sub_spec in *. change (Prim2SF 1) with SF1 in *.
  destruct (Prim2SF q) as [s|s| |s m e]; simpl in Hq; subst; try reflexivity.
  apply compare_one_valid; [exact V|].
  apply SFsub_one_not_above_one.
Qed.

(** ** Exact zeros *)

Lemma shl_align_same (m : positive) (e : Z) : shl_align m e e = (m, e).
Proof. unfold shl_align. now rewrite Z.sub_diag. Qed.

Lemma sub_equal_zero (a b : float) :
  sf_finite (Prim2SF b) -> PrimFloat.eqb a b = true ->
  sf_zero (Prim2SF (a - b)).
Proof.
  rewrite eqb_spec, sub_spec. unfold SF64sub, SFsub, SFeqb, SFcompare.
  destruct (Prim2SF a) as [sa|sa| |sa ma ea], (Prim2SF b) as [sb|sb| |sb mb eb];
    cbn [sf_finite sf_zero]; intros Hb E; try contradiction;
    first [ discriminate
          | destruct sa, sb; exact I
          | destruct sa; discriminate
          | destruct sb; discriminate
          | idtac ].
  destruct sa, sb; try discriminate;
    destruct (Z.compare ea eb) eqn:Ce; try discriminate;
    apply Z.compare_eq in Ce; subst eb;
    destruct (Pos.compare_cont Eq ma mb) eqn:Cm; try discriminate;
    apply Pos.compare_eq in Cm; subst mb;
    rewrite Z.min_id, shl_align_same; cbn [fst cond_Zopp];
    rewrite Z.sub_diag; exact I.
Qed.

Lemma square_of_zero (r : float) :
  sf_zero (Prim2SF r) -> Prim2SF (r * r) = S754_zero false.
Proof.
  rewrite mul_spec. unfold SF64mul, SFmul.
  destruct (Prim2SF r) as [s|s| |s m e]; cbn [sf_zero]; intros Hr;
    try contradiction.
  now rewrite xorb_nilpotent.
Qed.

Lemma finite_times_zero (w q : float) :
  sf_finite (Prim2SF w) -> Prim2SF q = S754_zero false ->
  sf_zero (Prim2SF (w * q)).
Proof.
  rewrite mul_spec. unfold SF64mul, SFmul. intros Hw ->.
  destruct (Prim2SF w) as [s|s| |s m e]; cbn [sf_finite] in Hw;
    try contradiction; exact I.
Qed.

Lemma fold_add_zero (terms : list float) (acc : float) :
  Prim2SF acc = S754_zero false ->
  Forall (fun t => sf_zero (Prim2SF t)) terms ->
  Prim2SF (fold_left PrimFloat.add terms acc) = S754_zero false.
Proof.
  intros Ha Ht. revert acc Ha.
  induction Ht as [|t terms Hz Ht IH]; intros acc Ha; simpl; auto.
  apply IH. rewrite add_spec, Ha. unfold SF64add, SFadd.
  destruct (Prim2SF t) as [s|s| |s m e]; cbn [sf_zero] in Hz;
    try contradiction.
  destruct s; reflexivity.
Qed.

Lemma zero_over_nonzero (a b : float) :
  Prim2SF a = S754_zero false ->
  PrimFloat.is_nan b = false -> PrimFloat.eqb b 0 = false ->
  sf_zero (Prim2SF (a / b)).
Proof.
  unfold PrimFloat.is_nan. rewrite !eqb_spec, div_spec.
  change (Prim2SF 0) with (S754_zero false).
  intros -> Hn Hz. unfold SF64div, SFdiv.
  destruct (Prim2SF b) as [s|s| |s m e]; try exact I.
  - destruct s; discriminate.
  - discriminate.
Qed.

Lemma one_minus_zero (q : float) : sf_zero (Prim2SF q) -> (1 - q)%float = 1%float.
Proof.
  intros Hq. apply Prim2SF_inj. rewrite sub_spec.
  destruct (Prim2SF q) as [s|s| |s m e]; cbn [sf_zero] in Hq;
    try contradiction.
  reflexivity.
Qed.

End Float64Arithmetic.

(** * The coefficient of determination, step by step *)

Section DeterminationSteps.
Context {T : Type} `{Scalar T}.

(** When the comprehension of [compute_weights] returns, its weights are
    those of [weights_of]. *)
Lemma weights_comprehension_inv wf (X y ws : list T) :
  weights_comprehension wf X y (seq 0 (length X)) = Ok ws ->
  ws = zip_with wf X y.
Proof.
  revert y ws; induction X as [|x X IH]; intros y ws.
  - simpl. intros E. now inversion E.
  - destruct y as [|b y]; [discriminate|].
    cbn [length seq]. rewrite <- seq_shift.
    cbn [weights_comprehension getitem nth_error bind].
    rewrite weights_comprehension_shift.
    destruct (weights_comprehension wf X y (seq 0 (length X))) as [ws'|e] eqn:C;
      cbn [bind]; [|discriminate].
    intros E. inversion E. simpl. f_equal. now apply IH.
Qed.

Lemma zip_with_Forall (P : T -> Prop) (f : T -> T -> T) (a b : list T) :
  (forall u v, In u a -> In v b -> P (f u v)) -> Forall P (zip_with f a b).
Proof.
  revert b; induction a as [|x a IH]; intros [|v b] Hf; simpl; constructor.
  - apply Hf; simpl; auto.
  - apply IH. intros u' v' Hu Hv. apply Hf; simpl; auto.
Qed.

(** Every element of a broadcast result is the operation on an element
    of each operand. *)
Lemma broadcast_Forall (P : T -> Prop) (f : T -> T -> T) (a b l : list T) :
  (forall u v, In u a -> In v b -> P (f u v)) ->
  broadcast f a b = Ok l -> Forall P l.
Proof.
  intros Hf. unfold broadcast.
  destruct (Nat.eqb (length a) (length b)).
  - intros E. inversion E. now apply zip_with_Forall.
  - intros E.
    destruct a as [|x [|x' a]]; destruct b as [|v [|v' b]];
      try discriminate E; injection E as <-;
      apply Forall_forall; intros t Ht; simpl in Ht;
      repeat match goal with
             | K : _ \/ _ |- _ => destruct K
             | K : False |- _ => destruct K
             | K : In _ (map _ _) |- _ =>
                 apply in_map_iff in K; destruct K as (u & <- & Hu)
             end;
      subst; apply Hf; simpl; auto.
Qed.

(** What a returned coefficient of determination is made of, for all
    inputs: the weights are those of [weights_of], and the residuals and
    both sums of squares come from numpy's broadcasting operations. *)
Lemma determination_inv (X y : list T) trendline weight_func (r : T) :
  coefficient_of_determination X y trendline weight_func = Ok r ->
  exists yhat mean tss_terms residuals rss_terms,
    trendline X = Ok yhat /\
    np_average y (weights_of X y weight_func) = Ok mean /\
    arr_mul (weights_of X y weight_func)
            (arr_square (arr_sub_scalar y mean)) = Ok tss_terms /\
    arr_sub yhat y = Ok residuals /\
    arr_mul (weights_of X y weight_func) (arr_square residuals)
      = Ok rss_terms /\
    r = ssub one (sdiv (np_sum rss_terms) (np_sum tss_terms)).
Proof.
  unfold coefficient_of_determination.
  destruct (match weight_func with
            | Some _ =>
                ow <- compute_weights X y weight_func ;;
                match ow with
                | Some ws => Ok ws
                | None => Raise (TypeError "unsupported operand type(s) for *")
                end
            | None => Ok (ones (length X))
            end) as [w|e] eqn:W; cbn [bind]; [|discriminate].
  assert (Ew : w = weights_of X y weight_func).
  { destruct weight_func as [wf|]; simpl weights_of.
    - unfold compute_weights in W.
      destruct (weights_comprehension wf X y (seq 0 (length X))) as [ws|e] eqn:C;
        cbn [bind] in W; [|discriminate].
      inversion W; subst. now apply weights_comprehension_inv.
    - now inversion W. }
  subst w. clear W.
  destruct (trendline X) as [yhat|e] eqn:E1; cbn [bind]; [|discriminate].
  destruct (np_average y (weights_of X y weight_func)) as [mean|e] eqn:E2;
    cbn [bind]; [|discriminate].
  destruct (arr_mul (weights_of X y weight_func)
                    (arr_square (arr_sub_scalar y mean))) as [t1|e] eqn:E3;
    cbn [bind]; [|discriminate].
  destruct (arr_sub yhat y) as [res|e] eqn:E4; cbn [bind]; [|discriminate].
  destruct (arr_mul (weights_of X y weight_func) (arr_square res))
    as [t2|e] eqn:E5; cbn [bind]; [|discriminate].
  intros E. inversion E.
  exists yhat, mean, t1, res, t2. repeat split; assumption.
Qed.

(** For samples of equal length and any trendline: the weights are built,
    the trendline is called, [np_average] tests the weights, and the
    residuals and their weighted squares are formed by broadcasting, which
    raises ValueError when the trendline's array has neither the length
    of y nor length one. *)
Lemma determination_steps (X y : list T) trendline weight_func :
  length X = length y ->
  coefficient_of_determination X y trendline weight_func =
  (yhat <- trendline X ;;
   match average_guard (length y) (weights_of X y weight_func) with
   | Some e => Raise e
   | None =>
       residuals <- arr_sub yhat y ;;
       rss_terms <- arr_mul (weights_of X y weight_func)
                            (arr_square residuals) ;;
       Ok (ssub one (sdiv (np_sum rss_terms)
                          (tss_value (weights_of X y weight_func) y)))
   end).
Proof.
  intros E.
  pose proof (weights_of_length X y weight_func E) as Ew.
  unfold coefficient_of_determination.
  assert (W : match weight_func with
              | Some _ =>
                  ow <- compute_weights X y weight_func ;;
                  match ow with
                  | Some ws => Ok ws
                  | None => Raise (TypeError "unsupported operand type(s) for *")
                  end
              | None => Ok (ones (length X))
              end = Ok (weights_of X y weight_func)).
  { destruct weight_func as [wf|]; simpl weights_of; auto.
    now rewrite compute_weights_eq. }
  rewrite W. cbn [bind].
  destruct (trendline X) as [yhat|e]; cbn [bind]; [|reflexivity].
  rewrite np_average_guard.
  destruct (average_guard (length y) (weights_of X y weight_func));
    cbn [bind]; auto.
  unfold arr_mul at 1.
  rewrite broadcast_same_length
    by (rewrite arr_square_length, arr_sub_scalar_length; congruence).
  cbn [bind]. reflexivity.
Qed.

End DeterminationSteps.

(** * The coefficient of determination in float64 *)

Section Float64Determination.

Lemma float_one : @one float Scalar_float = 1%float.
Proof. reflexivity. Qed.

Lemma float_zero_spec : Prim2SF (@zero float Scalar_float) = S754_zero false.
Proof. reflexivity. Qed.

Lemma np_sum_sign (terms : list float) :
  Forall (fun t => sf_nonneg (Prim2SF t)) terms ->
  sf_positive_sign (Prim2SF (np_sum terms)).
Proof.
  intros Ht. unfold np_sum.
  change (@sadd float Scalar_float) with PrimFloat.add.
  apply fold_add_sign; [|exact Ht].
  rewrite float_zero_spec. reflexivity.
Qed.

(** Weights that are not negative times squares: no term is negative. *)
Lemma weighted_squares_sign (w q terms : list float) :
  Forall (fun v => PrimFloat.leb 0 v = true) w ->
  arr_mul w (arr_square q) = Ok terms ->
  Forall (fun t => sf_nonneg (Prim2SF t)) terms.
Proof.
  intros Hw. unfold arr_mul. apply broadcast_Forall.
  intros u v Hu Hv.
  change (@smul float Scalar_float u v) with (u * v)%float.
  apply mul_nonneg_sign.
  - apply leb_zero_nonneg. rewrite Forall_forall in Hw. now apply Hw.
  - unfold arr_square in Hv. apply in_map_iff in Hv.
    destruct Hv as (z & <- & _).
    change (@smul float Scalar_float z z) with (z * z)%float.
    apply mul_square_sign.
Qed.

Lemma compare_cont_not_lt (k m : positive) :
  match Pos.compare_cont Eq k m with Lt => true | _ => false end = false ->
  match Pos.compare_cont Eq m k with Gt => false | _ => true end = true.
Proof.
  rewrite !Pos.compare_cont_spec.
  destruct (Pos.compare_spec k m) as [A|A|A];
    destruct (Pos.compare_spec m k) as [B|B|B]; simpl; intros L;
    try reflexivity; try discriminate L.
  - subst m. destruct (Pos.lt_irrefl _ B).
  - destruct (Pos.lt_irrefl _ (Pos.lt_trans _ _ _ A B)).
Qed.

Lemma SF_not_above_cases (x : spec_float) :
  SFltb SF1 x = false -> SFleb x SF1 = true \/ SFeqb x x = false.
Proof.
  unfold SF1, SFltb, SFleb, SFeqb, SFcompare.
  destruct x as [s|[|]| |[|] m e]; intros L;
    try (left; reflexivity); try (right; reflexivity); try discriminate L.
  left. rewrite (Z.compare_antisym (-52) e).
  destruct (Z.compare (-52) e) eqn:Ce; cbn [CompOpp] in *;
    try reflexivity; try discriminate L.
  apply compare_cont_not_lt. exact L.
Qed.

(** A float64 that is not above one is at most one, or NaN. *)
Lemma not_above_one_cases (r : float) :
  PrimFloat.ltb 1 r = false ->
  PrimFloat.leb r 1 = true \/ PrimFloat.is_nan r = true.
Proof.
  unfold PrimFloat.is_nan. rewrite ltb_spec, leb_spec, eqb_spec.
  change (Prim2SF 1) with SF1. intros L.
  destruct (SF_not_above_cases (Prim2SF r) L) as [A | A]; [now left|right].
  now rewrite A.
Qed.

(** Residuals of a trendline that returns the samples themselves. *)
Lemma exact_fit_residuals (yhat y : list float) :
  Forall2 (fun a b => PrimFloat.eqb a b = true) yhat y ->
  Forall (fun v => PrimFloat.is_finite v = true) y ->
  Forall (fun d => sf_zero (Prim2SF d)) (zip_with ssub yhat y).
Proof.
  induction 1 as [|a b yhat y Hab Hf IH]; intros Hy; simpl; constructor.
  - change (@ssub float Scalar_float a b) with (a - b)%float.
    inversion Hy; subst. apply sub_equal_zero; [|exact Hab].
    now apply is_finite_inv.
  - apply IH. now inversion Hy.
Qed.

Lemma exact_fit_terms (w d : list float) :
  Forall (fun v => PrimFloat.is_finite v = true) w ->
  Forall (fun d => sf_zero (Prim2SF d)) d ->
  Forall (fun t => sf_zero (Prim2SF t)) (zip_with smul w (arr_square d)).
Proof.
  intros Hw Hd. apply zip_with_Forall. intros u v Hu Hv.
  change (@smul float Scalar_float u v) with (u * v)%float.
  apply finite_times_zero.
  - apply is_finite_inv. rewrite Forall_forall in Hw. now apply Hw.
  - unfold arr_square in Hv. apply in_map_iff in Hv.
    destruct Hv as (z & <- & Hz).
    change (@smul float Scalar_float z z) with (z * z)%float.
    apply square_of_zero. rewrite Forall_forall in Hd. now apply Hd.
Qed.

Lemma exact_fit_rss (w yhat y : list float) :
  Forall2 (fun a b => PrimFloat.eqb a b = true) yhat y ->
  Forall (fun v => PrimFloat.is_finite v = true) y ->
  Forall (fun v => PrimFloat.is_finite v = true) w ->
  Prim2SF (rss_value w yhat y) = S754_zero false.
Proof.
  intros Hfit Hy Hw. unfold rss_value, np_sum.
  change (@sadd float Scalar_float) with PrimFloat.add.
  apply fold_add_zero; [exact float_zero_spec|].
  apply exact_fit_terms; [exact Hw|].
  now apply exact_fit_residuals.
Qed.

End Float64Determination.

(** * Sums added in any order *)

Section AnyOrder.
Local Open Scope float_scope.

Lemma add_nonneg_sign (a b : float) :
  sf_nonneg (Prim2SF a) -> sf_nonneg (Prim2SF b) ->
  sf_nonneg (Prim2SF (a + b)).
Proof.
  rewrite add_spec. unfold SF64add, SFadd.
  destruct (Prim2SF a) as [sa|sa| |sa ma ea], (Prim2SF b) as [sb|sb| |sb mb eb];
    cbn [sf_nonneg]; intros Ha Hb; subst; try exact I; try reflexivity.
  - destruct sa, sb; exact I.
  - cbv zeta. cbn [cond_Zopp].
    pose proof (binary_normalize_sum_sign
                  (fst (shl_align ma ea (Z.min ea eb)))
                  (fst (shl_align mb eb (Z.min ea eb))) (Z.min ea eb)) as S.
    destruct (binary_normalize prec emax _ _ _); cbn [sf_positive_sign] in S;
      cbn [sf_nonneg]; auto.
Qed.

Lemma add_sign_left (a b : float) :
  sf_nonneg (Prim2SF a) -> sf_positive_sign (Prim2SF b) ->
  sf_positive_sign (Prim2SF (a + b)).
Proof.
  rewrite add_spec. unfold SF64add, SFadd.
  destruct (Prim2SF a) as [sa|sa| |sa ma ea], (Prim2SF b) as [sb|sb| |sb mb eb];
    cbn [sf_positive_sign sf_nonneg]; intros Ha Hb; subst;
    try (cbv zeta; cbn [cond_Zopp]; apply binary_normalize_sum_sign);
    try destruct sa; simpl; auto.
Qed.

Lemma add_zero (a b : float) :
  sf_zero (Prim2SF a) -> sf_zero (Prim2SF b) -> sf_zero (Prim2SF (a + b)).
Proof.
  rewrite add_spec. unfold SF64add, SFadd.
  destruct (Prim2SF a) as [sa|sa| |sa ma ea], (Prim2SF b) as [sb|sb| |sb mb eb];
    cbn [sf_zero]; intros Ha Hb; try contradiction.
  destruct sa, sb; exact I.
Qed.

Lemma div_nonneg_sign (a b : float) :
  sf_nonneg (Prim2SF a) -> sf_positive_sign (Prim2SF b) ->
  sf_nonneg (Prim2SF (a / b)).
Proof.
  rewrite div_spec. unfold SF64div, SFdiv.
  destruct (Prim2SF a) as [sa|sa| |sa ma ea], (Prim2SF b) as [sb|sb| |sb mb eb];
    cbn [sf_nonneg sf_positive_sign]; intros Ha Hb; subst;
    try exact I; try reflexivity.
  destruct (SFdiv_core_binary prec emax (Zpos ma) ea (Zpos mb) eb) as [[mz ez] lz].
  pose proof (binary_round_aux_sign (xorb false false) mz ez lz) as S.
  destruct (binary_round_aux prec emax _ _ _ _); cbn [sf_nonneg]; auto.
Qed.

(** One minus a value that is not negative, a zero of either sign
    included, is not above one. *)
Lemma one_minus_nonneg (q : float) :
  sf_nonneg (Prim2SF q) -> PrimFloat.ltb 1 (1 - q) = false.
Proof.
  intros Hq.
  destruct (Prim2SF q) as [s|s| |s m e] eqn:E.
  - assert (Z : (1 - q) = 1) by (apply one_minus_zero; now rewrite E).
    rewrite Z. reflexivity.
  - apply one_minus_not_above_one. rewrite E. exact Hq.
  - apply one_minus_not_above_one. rewrite E. exact I.
  - apply one_minus_not_above_one. rewrite E. exact Hq.
Qed.

Lemma zero_over_nonzero_signed (a b : float) :
  sf_zero (Prim2SF a) ->
  PrimFloat.is_nan b = false -> PrimFloat.eqb b 0 = false ->
  sf_zero (Prim2SF (a / b)).
Proof.
  unfold PrimFloat.is_nan. rewrite !eqb_spec, div_spec.
  change (Prim2SF 0) with (S754_zero false).
  unfold SF64div, SFdiv.
  destruct (Prim2SF a) as [sa|sa| |sa ma ea]; cbn [sf_zero];
    intros Ha Hn Hz; try contradiction.
  destruct (Prim2SF b) as [s|s| |s m e]; try exact I.
  - destruct s; discriminate.
  - discriminate.
Qed.

(** A weight that is not negative and not zero, times a square. *)
Lemma mul_positive_sign (w q : float) :
  sf_nonneg (Prim2SF w) -> ~ sf_zero (Prim2SF w) ->
  sf_positive_sign (Prim2SF q) ->
  sf_positive_sign (Prim2SF (w * q)).
Proof.
  rewrite mul_spec. unfold SF64mul, SFmul.
  destruct (Prim2SF w) as [sw|sw| |sw mw ew], (Prim2SF q) as [sq|sq| |sq mq eq];
    cbn [sf_nonneg sf_positive_sign sf_zero]; intros Hw Hnz Hq; subst;
    try exact I; try reflexivity; try (exfalso; apply Hnz; exact I).
  pose proof (binary_round_aux_sign (xorb false false) (Zpos (mw * mq)) (ew + eq)
                                    loc_Exact) as S.
  destruct (binary_round_aux prec emax _ _ _ _); cbn [sf_positive_sign]; auto.
Qed.

(** *** Totals in any order *)

Lemma sums_to_nonneg (terms : list float) (v : float) :
  sums_to terms v ->
  Forall (fun t => sf_nonneg (Prim2SF t)) terms -> sf_nonneg (Prim2SF v).
Proof.
  induction 1 as [|x|a b u v Ha IHa Hb IHb|a b u P Ha IH]; intros Hf.
  - exact I.
  - now inversion Hf.
  - apply Forall_app in Hf. destruct Hf as [Fa Fb].
    apply add_nonneg_sign; auto.
  - apply IH. rewrite Forall_forall in *. intros t Ht.
    apply Hf. now apply (Permutation.Permutation_in t P).
Qed.

Lemma sums_to_positive_sign (terms : list float) (v : float) :
  sums_to terms v ->
  Forall (fun t => sf_nonneg (Prim2SF t)) terms ->
  Exists (fun t => sf_positive_sign (Prim2SF t)) terms ->
  sf_positive_sign (Prim2SF v).
Proof.
  induction 1 as [|x|a b u v Ha IHa Hb IHb|a b u P Ha IH]; intros Hf He.
  - reflexivity.
  - inversion He as [? ? Hx|? ? Hx]; [exact Hx | inversion Hx].
  - apply Forall_app in Hf. destruct Hf as [Fa Fb].
    apply Exists_app in He. destruct He as [Ea | Eb].
    + apply add_sign.
      * now apply IHa.
      * now apply (sums_to_nonneg b).
    + apply add_sign_left.
      * now apply (sums_to_nonneg a).
      * now apply IHb.
  - apply IH.
    + rewrite Forall_forall in *. intros t Ht.
      apply Hf. now apply (Permutation.Permutation_in t P).
    + rewrite Exists_exists in *. destruct He as (t & Ht & Hp).
      exists t. split; [|exact Hp].
      now apply (Permutation.Permutation_in t (Permutation.Permutation_sym P)).
Qed.

Lemma sums_to_zero (terms : list float) (v : float) :
  sums_to terms v ->
  Forall (fun t => sf_zero (Prim2SF t)) terms -> sf_zero (Prim2SF v).
Proof.
  induction 1 as [|x|a b u v Ha IHa Hb IHb|a b u P Ha IH]; intros Hf.
  - exact I.
  - now inversion Hf.
  - apply Forall_app in Hf. destruct Hf as [Fa Fb].
    apply add_zero; auto.
  - apply IH. rewrite Forall_forall in *. intros t Ht.
    apply Hf. now apply (Permutation.Permutation_in t P).
Qed.

(** The total of [np_sum] is one of them. *)
Lemma fold_left_sums_to (rest done : list float) (acc : float) :
  sums_to done acc ->
  sums_to (done ++ rest) (fold_left PrimFloat.add rest acc).
Proof.
  revert done acc. induction rest as [|x rest IH]; intros done acc Hd.
  - rewrite app_nil_r. exact Hd.
  - cbn [fold_left].
    replace (done ++ x :: rest) with ((done ++ [x]) ++ rest)
      by (rewrite <- app_assoc; reflexivity).
    apply IH. apply sums_app; [exact Hd | apply sums_one].
Qed.

Lemma np_sum_sums_to (terms : list float) : sums_to terms (np_sum terms).
Proof.
  unfold np_sum. change (@sadd float Scalar_float) with PrimFloat.add.
  apply (fold_left_sums_to terms []). exact sums_nil.
Qed.

Lemma sums_to_empty (terms : list float) (v : float) :
  sums_to terms v -> terms = [] -> Prim2SF v = S754_zero false.
Proof.
  induction 1 as [|x|a b u v Ha IHa Hb IHb|a b u P Ha IH]; intros E.
  - reflexivity.
  - discriminate E.
  - apply app_eq_nil in E. destruct E as [Ea Eb].
    rewrite add_spec, (IHa Ea), (IHb Eb). reflexivity.
  - subst b. apply IH.
    apply Permutation.Permutation_nil. now apply Permutation.Permutation_sym.
Qed.

Lemma sf_zero_dec (v : float) : {sf_zero (Prim2SF v)} + {~ sf_zero (Prim2SF v)}.
Proof.
  destruct (Prim2SF v); cbn [sf_zero]; first [left; exact I | right; tauto].
Qed.

Lemma zero_weight_total (w : list float) (total : float) :
  sums_to w total -> PrimFloat.eqb total 0 = false ->
  Exists (fun v => ~ sf_zero (Prim2SF v)) w.
Proof.
  intros Hs Hz. apply (neg_Forall_Exists_neg sf_zero_dec).
  intros Hf. pose proof (sums_to_zero w total Hs Hf) as Z.
  rewrite eqb_spec in Hz. change (Prim2SF 0) with (S754_zero false) in Hz.
  destruct (Prim2SF total) as [s|s| |s m e]; cbn [sf_zero] in Z;
    try contradiction.
  destruct s; discriminate Hz.
Qed.

Lemma zip_with_covers (f : float -> float -> float) (a b : list float) :
  length a = length b ->
  forall u, In u a -> exists v, In v b /\ In (f u v) (zip_with f a b).
Proof.
  revert b; induction a as [|x a IH]; intros [|y b] E u Hu;
    try discriminate E; [destruct Hu|].
  destruct Hu as [<- | Hu].
  - exists y. split; left; reflexivity.
  - injection E as E. destruct (IH b E u Hu) as (v & Hv & Hin).
    exists v. split; right; assumption.
Qed.

(** A broadcast result that is not empty uses every element of the left
    operand. *)
Lemma broadcast_covers (f : float -> float -> float) (a b l : list float) :
  broadcast f a b = Ok l ->
  l = [] \/ forall u, In u a -> exists v, In v b /\ In (f u v) l.
Proof.
  unfold broadcast.
  destruct (Nat.eqb (length a) (length b)) eqn:E.
  - intros K. injection K as <-. right.
    apply zip_with_covers. now apply Nat.eqb_eq.
  - intros K.
    destruct a as [|x [|x' a]]; destruct b as [|y [|y' b]];
      try discriminate K; injection K as <-.
    + left. reflexivity.
    + left. reflexivity.
    + right. intros u [<- | []]. exists y. split; left; reflexivity.
    + right. intros u [<- | []]. exists y. split; left; reflexivity.
    + right. intros u Hu. exists y. split; [left; reflexivity|].
      exact (in_map (fun t => f t y) (x :: x' :: a) u Hu).
Qed.

(** However the weight total, tss and rss are added up, and whatever the
    mean: with weights that are not negative and a nonzero weight total,
    1 - rss/tss is not above one. *)
Lemma weighted_squares_any_order
      (w c q tss_terms rss_terms : list float) (total rss tss : float) :
  Forall (fun v => PrimFloat.leb 0 v = true) w ->
  sums_to w total -> PrimFloat.eqb total 0 = false ->
  arr_mul w (arr_square c) = Ok tss_terms ->
  arr_mul w (arr_square q) = Ok rss_terms ->
  sums_to tss_terms tss -> sums_to rss_terms rss ->
  PrimFloat.ltb 1 (1 - rss / tss) = false.
Proof.
  intros Hw Ht Hz H1 H2 S1 S2.
  apply one_minus_nonneg. apply div_nonneg_sign.
  - apply (sums_to_nonneg rss_terms rss S2).
    now apply (weighted_squares_sign w q).
  - destruct (broadcast_covers _ _ _ _ H1) as [-> | Hc].
    + rewrite (sums_to_empty [] tss S1 eq_refl). reflexivity.
    + apply (sums_to_positive_sign tss_terms tss S1).
      * now apply (weighted_squares_sign w c).
      * pose proof (zero_weight_total w total Ht Hz) as Ex.
        rewrite Exists_exists in *. destruct Ex as (u & Hu & Hnz).
        destruct (Hc u Hu) as (v & Hv & Hin).
        exists (smul u v). split; [exact Hin|].
        change (@smul float Scalar_float u v) with (u * v).
        apply mul_positive_sign.
        -- apply leb_zero_nonneg. rewrite Forall_forall in Hw. now apply Hw.
        -- exact Hnz.
        -- unfold arr_square in Hv. apply in_map_iff in Hv.
           destruct Hv as (z & <- & _).
           change (@smul float Scalar_float z z) with (z * z).
           apply mul_square_sign.
Qed.

(** However rss is added up: on an exact fit with finite samples and
    weights it is a zero, and 1 - rss/tss is 1 when tss is neither zero
    nor NaN. *)
Lemma exact_fit_any_order (w yhat y : list float) (rss tss : float) :
  Forall2 (fun a b => PrimFloat.eqb a b = true) yhat y ->
  Forall (fun v => PrimFloat.is_finite v = true) y ->
  Forall (fun v => PrimFloat.is_finite v = true) w ->
  sums_to (zip_with smul w (arr_square (zip_with ssub yhat y))) rss ->
  PrimFloat.is_nan tss = false -> PrimFloat.eqb tss 0 = false ->
  1 - rss / tss = 1.
Proof.
  intros Hfit Hy Hw Hs Hn Hz.
  apply one_minus_zero. apply zero_over_nonzero_signed; [|exact Hn|exact Hz].
  apply (sums_to_zero _ rss Hs).
  apply exact_fit_terms; [exact Hw|].
  now apply exact_fit_residuals.
Qed.

End AnyOrder.

(** * The value of the coefficient of determination *)

Section DeterminationValue.

(** The exact total sum of squares of two samples a and 2a, with unit
    weights, is a^2/2: nonzero unless a is. *)
Lemma TSS_two_samples (a : R) :
  (a <> 0 -> TSS [1; 1] [a; 2 * a] <> 0)%R.
Proof.
  intros Ha. unfold TSS, weighted_mean, weighted_sum, Rsum.
  cbn [combine map fold_right fst snd].
  intros Hz.
  assert (E : (a * a = 0)%R) by (field_simplify in Hz; nra).
  apply Ha. nra.
Qed.

(** C2 (as the code has it): for float64 samples of equal length and any
    trendline, [coefficient_of_determination] calls the trendline, raises
    what numpy.average raises on the weights, forms the residuals and
    their weighted squares by broadcasting (ValueError when the
    trendline's array has neither the length of y nor length one) and
    returns the float64 value 1 - rss/tss, which is
    [determination_value] when the trendline's array has the length of
    y.  It returns exactly 1.0 when the trendline's values equal the
    samples, the samples and the weights are finite, and the computed tss
    is neither zero nor NaN; this holds in whatever order the terms of
    rss are added.  In exact arithmetic, with TSS nonzero, the value is
    1 - RSS/TSS, and 1 on an exact fit. *)
Theorem coefficient_of_determination_returns :
  (forall (X y : list float) trendline weight_func,
      length X = length y ->
      coefficient_of_determination X y trendline weight_func =
      (yhat <- trendline X ;;
       match average_guard (length y) (weights_of X y weight_func) with
       | Some e => Raise e
       | None =>
           residuals <- arr_sub yhat y ;;
           rss_terms <- arr_mul (weights_of X y weight_func)
                                (arr_square residuals) ;;
           Ok (1 - np_sum rss_terms /
                   tss_value (weights_of X y weight_func) y)%float
       end)) /\
  (forall (X y yhat : list float) trendline weight_func,
      length X = length y ->
      trendline X = Ok yhat -> length yhat = length y ->
      PrimFloat.eqb (np_sum (weights_of X y weight_func)) 0 = false ->
      coefficient_of_determination X y trendline weight_func =
      Ok (1 - rss_value (weights_of X y weight_func) yhat y /
              tss_value (weights_of X y weight_func) y)%float) /\
  (forall (X y yhat : list float) trendline weight_func,
      length X = length y ->
      trendline X = Ok yhat ->
      PrimFloat.eqb (np_sum (weights_of X y weight_func)) 0 = false ->
      Forall2 (fun a b => PrimFloat.eqb a b = true) yhat y ->
      Forall (fun v => PrimFloat.is_finite v = true) y ->
      Forall (fun v => PrimFloat.is_finite v = true)
             (weights_of X y weight_func) ->
      PrimFloat.is_nan (tss_value (weights_of X y weight_func) y) = false ->
      PrimFloat.eqb (tss_value (weights_of X y weight_func) y) 0 = false ->
      coefficient_of_determination X y trendline weight_func = Ok 1%float) /\
  (forall (w y yhat : list float) (rss tss : float),
      Forall2 (fun a b => PrimFloat.eqb a b = true) yhat y ->
      Forall (fun v => PrimFloat.is_finite v = true) y ->
      Forall (fun v => PrimFloat.is_finite v = true) w ->
      sums_to (zip_with smul w (arr_square (zip_with ssub yhat y))) rss ->
      PrimFloat.is_nan tss = false -> PrimFloat.eqb tss 0 = false ->
      (1 - rss / tss)%float = 1%float) /\
  (forall (X y yhat : list R) trendline weight_func,
      length X = length y ->
      trendline X = Ok yhat -> length yhat = length y ->
      Rsum (spec_weights X y weight_func) <> 0%R ->
      TSS (spec_weights X y weight_func) y <> 0%R ->
      coefficient_of_determination X y trendline weight_func =
      Ok (1 - RSS (spec_weights X y weight_func) yhat y /
              TSS (spec_weights X y weight_func) y)%R /\
      ((forall i, nth_error yhat i = nth_error y i) ->
       coefficient_of_determination X y trendline weight_func = Ok 1%R)).
Proof.
  split; [|split; [|split; [|split]]].
  - intros X y trendline weight_func E.
    exact (determination_steps X y trendline weight_func E).
  - intros X y yhat trendline weight_func E Ht Eh Hw.
    rewrite (coefficient_of_determination_guard X y yhat trendline weight_func
               E Ht Eh).
    rewrite average_guard_intro; [reflexivity | | exact Hw].
    rewrite weights_of_length; congruence.
  - intros X y yhat trendline weight_func E Ht Hw Hfit Hy Hfw Hnan Hz.
    pose proof (Forall2_length Hfit) as Eh.
    rewrite (coefficient_of_determination_guard X y yhat trendline weight_func
               E Ht Eh).
    rewrite average_guard_intro;
      [| rewrite weights_of_length; congruence | exact Hw].
    f_equal. unfold determination_value.
    change (@ssub float Scalar_float) with PrimFloat.sub.
    change (@sdiv float Scalar_float) with PrimFloat.div.
    rewrite float_one. apply one_minus_zero.
    apply zero_over_nonzero; [|exact Hnan|exact Hz].
    now apply exact_fit_rss.
  - intros w y yhat rss tss. exact (exact_fit_any_order w yhat y rss tss).
  - intros X y yhat trendline weight_func E Ht Eh Hw Htss.
    exact (determination_exact_fit_R X y yhat trendline weight_func
             E Ht Eh Hw Htss).
Qed.

Lemma coefficient_of_determination_returns_witness :
  coefficient_of_determination (floats [1; 2; 3]) (floats [2; 4; 6])
    (fun x => Ok (map (fun t => (2 * t)%float) x)) (Some (fun a b => a)) =
  Ok 1%float.
Proof.
  apply (proj1 (proj2 (proj2 coefficient_of_determination_returns))
           (floats [1; 2; 3]) (floats [2; 4; 6])
           (map (fun t => (2 * t)%float) (floats [1; 2; 3]))).
  - reflexivity.
  - reflexivity.
  - reflexivity.
  - repeat constructor.
  - repeat constructor.
  - repeat constructor.
  - reflexivity.
  - reflexivity.
Defined.

(** An exact fit with a nonzero total sum of squares is not always
    returned as 1.0: the conditions on the computed tss are needed.  On the
    samples 2^-600 and 2^-599 with unit weights the squares underflow:
    the computed tss is 0 although the exact one is not, and the result
    is NaN.  On the samples 2^600 and -2^600 with every weight 2^500 the
    weighted mean overflows: the computed tss is NaN, and so is the
    result. *)
Lemma coefficient_of_determination_returns_counterexample :
  (map Prim2SF tiny_y =
     [S754_finite false 4503599627370496 (-652);
      S754_finite false 4503599627370496 (-651)] /\
   (TSS [1; 1] [/ 2 ^ 600; 2 * / 2 ^ 600] <> 0)%R /\
   tss_value (weights_of (floats [1; 2]) tiny_y None) tiny_y = 0%float /\
   coefficient_of_determination (floats [1; 2]) tiny_y
     (fun _ => Ok tiny_y) None = Ok nan) /\
  (PrimFloat.eqb
     (tss_value (weights_of (floats [1; 2]) huge_y
                            (Some (fun _ _ => 0x1p500%float))) huge_y) 0
   = false /\
   coefficient_of_determination (floats [1; 2]) huge_y
     (fun _ => Ok huge_y) (Some (fun _ _ => 0x1p500%float)) = Ok nan) /\
  PrimFloat.eqb nan 1 = false.
Proof.
  split; [|split].
  - split; [reflexivity|]. split; [|split; reflexivity].
    apply TSS_two_samples. apply Rinv_neq_0_compat. apply pow_nonzero. lra.
  - split; reflexivity.
  - reflexivity.
Qed.

(** C10 (as the code has it): with weights that are not negative, a
    float64 coefficient of determination that is returned is never above
    1: it is at most 1, or NaN.  This does not depend on the order in
    which the weight total, tss and rss are added up, nor on the mean
    ([np_sum] adds them in one such order).
    In exact arithmetic, with a positive weight total and a nonzero TSS,
    it is at most 1.  It is not bounded below by 0. *)
Theorem coefficient_of_determination_not_above_1 :
  (forall (X y : list float) trendline weight_func (r : float),
      Forall (fun v => PrimFloat.leb 0 v = true) (weights_of X y weight_func) ->
      coefficient_of_determination X y trendline weight_func = Ok r ->
      PrimFloat.ltb 1 r = false /\
      (PrimFloat.leb r 1 = true \/ PrimFloat.is_nan r = true)) /\
  (forall (X y residuals tss_terms rss_terms : list float) weight_func
          (mean total rss tss : float),
      Forall (fun v => PrimFloat.leb 0 v = true) (weights_of X y weight_func) ->
      sums_to (weights_of X y weight_func) total ->
      PrimFloat.eqb total 0 = false ->
      arr_mul (weights_of X y weight_func)
              (arr_square (arr_sub_scalar y mean)) = Ok tss_terms ->
      arr_mul (weights_of X y weight_func) (arr_square residuals)
        = Ok rss_terms ->
      sums_to tss_terms tss -> sums_to rss_terms rss ->
      PrimFloat.ltb 1 (1 - rss / tss) = false /\
      (PrimFloat.leb (1 - rss / tss) 1 = true \/
       PrimFloat.is_nan (1 - rss / tss) = true)) /\
  (forall (X y yhat : list R) trendline (weight_func : option (R -> R -> R)),
      length X = length y ->
      trendline X = Ok yhat -> length yhat = length y ->
      Forall (fun v => (0 <= v)%R) (spec_weights X y weight_func) ->
      (0 < Rsum (spec_weights X y weight_func))%R ->
      TSS (spec_weights X y weight_func) y <> 0%R ->
      exists r2,
        coefficient_of_determination X y trendline weight_func = Ok r2 /\
        (r2 <= 1)%R) /\
  (forall terms : list float, sums_to terms (np_sum terms)) /\
  (exists r2 : R,
      coefficient_of_determination [1; 2]%R [1; 2]%R
        (fun x => Ok (map (fun _ => 0%R) x)) None = Ok r2 /\
      (r2 < 0)%R) /\
  coefficient_of_determination (floats [1; 2]) (floats [1; 2])
    (fun x => Ok (floats [0; 0])) None = Ok (-9)%float.
Proof.
  split; [|split; [|split; [|split; [|split]]]].
  - intros X y trendline weight_func r Hw Hr.
    destruct (determination_inv X y trendline weight_func r Hr)
      as (yhat & mean & t1 & res & t2 & _ & _ & H1 & _ & H2 & ->).
    assert (L : PrimFloat.ltb 1 (ssub one (sdiv (np_sum t2) (np_sum t1)))
                = false).
    { change (@ssub float Scalar_float) with PrimFloat.sub.
      change (@sdiv float Scalar_float) with PrimFloat.div.
      rewrite float_one. apply one_minus_not_above_one.
      apply div_sign; apply np_sum_sign;
        eapply weighted_squares_sign; eauto. }
    split; [exact L|]. now apply not_above_one_cases.
  - intros X y residuals tss_terms rss_terms weight_func mean total rss tss
           Hw Ht Hz H1 H2 S1 S2.
    pose proof (weighted_squares_any_order
                  (weights_of X y weight_func) (arr_sub_scalar y mean)
                  residuals tss_terms rss_terms total rss tss
                  Hw Ht Hz H1 H2 S1 S2) as L.
    split; [exact L|]. now apply not_above_one_cases.
  - exact determination_at_most_1_R.
  - exact np_sum_sums_to.
  - exact determination_negative_R.
  - reflexivity.
Qed.

Lemma coefficient_of_determination_not_above_1_witness :
  exists r,
    coefficient_of_determination (floats [1; 2; 4]) (floats [1; 3; 2])
      (fun x => Ok (map (fun t => (t + 1)%float) x)) (Some (fun a b => a))
    = Ok r /\
    PrimFloat.ltb 1 r = false /\
    (PrimFloat.leb r 1 = true \/ PrimFloat.is_nan r = true).
Proof.
  eexists. split; [reflexivity|].
  apply (proj1 coefficient_of_determination_not_above_1
           (floats [1; 2; 4]) (floats [1; 3; 2])
           (fun x => Ok (map (fun t => (t + 1)%float) x))
           (Some (fun a b => a))).
  - repeat constructor.
  - reflexivity.
Defined.

(** On the samples 2^600 and -2^600, a trendline that is zero everywhere
    and unit weights, the squares overflow: rss and tss are both
    infinity, and the result is NaN, which is not at most 1. *)
Lemma coefficient_of_determination_not_above_1_counterexample :
  Forall (fun v => PrimFloat.leb 0 v = true)
         (weights_of (floats [1; 2]) huge_y None) /\
  PrimFloat.eqb (np_sum (weights_of (floats [1; 2]) huge_y None)) 0 = false /\
  tss_value (weights_of (floats [1; 2]) huge_y None) huge_y = infinity /\
  coefficient_of_determination (floats [1; 2]) huge_y
    (fun x => Ok (floats [0; 0])) None = Ok nan /\
  PrimFloat.leb nan 1 = false.
Proof.
  split; [repeat constructor|]. repeat split; reflexivity.
Qed.

End DeterminationValue.
